(** * Sources registry: the TypeScript message encoders and the address
      derivation of [contracts/sources-registry.ts], and the registry's
      state machine.

    The development follows the source file top to bottom.  Strings stand
    for the UTF-8 bytes of the JavaScript strings, [BN] values are integers
    of [Z], a [Buffer] is a list of bytes, and a thrown [Error] is the [Err]
    branch of a small error monad. *)

From Stdlib Require Import String Ascii Bool ZArith Lia List.
From Stdlib.Strings Require Import Byte.
From Stdlib Require DecimalString DecimalZ DecimalPos.
Import ListNotations.

Local Open Scope string_scope.
Local Open Scope list_scope.
Local Open Scope Z_scope.

(* ================================================================== *)
(** ** Bytes and bits *)

Definition Buffer := list byte.

Definition Z_of_byte (b : byte) : Z := Z.of_N (Byte.to_N b).

Definition byte_of_Z (z : Z) : byte :=
  match Byte.of_N (Z.to_N (z mod 256)) with
  | Some b => b
  | None => x00
  end.

(** [uint_bits n v]: the [n] low bits of [v], most significant first. *)
Fixpoint uint_bits (n : nat) (v : Z) : list bool :=
  match n with
  | O => []
  | S k => Z.testbit v (Z.of_nat k) :: uint_bits k v
  end.

(** The unsigned integer a bit string spells, most significant bit first. *)
Definition bits_to_Z (l : list bool) : Z :=
  fold_left (fun acc (b : bool) => 2 * acc + Z.b2z b) l 0.

Definition byte_bits (b : byte) : list bool := uint_bits 8 (Z_of_byte b).

Definition bytes_bits (buf : Buffer) : list bool := flat_map byte_bits buf.

(** [new BN(buffer)]: the bytes read as one big-endian unsigned integer. *)
Definition BN_of_bytes (buf : Buffer) : Z :=
  fold_left (fun acc b => 256 * acc + Z_of_byte b) buf 0.

(** Bits grouped into bytes, most significant bit first; a trailing group
    of fewer than eight bits is dropped. *)
Fixpoint bits_bytes (l : list bool) : Buffer :=
  match l with
  | b7 :: b6 :: b5 :: b4 :: b3 :: b2 :: b1 :: b0 :: rest =>
      byte_of_Z (bits_to_Z [b7; b6; b5; b4; b3; b2; b1; b0]) :: bits_bytes rest
  | _ => []
  end.

(** [Buffer.from(s)] and the UTF-8 bytes a hash is updated with. *)
Definition utf8 (s : string) : Buffer := list_byte_of_string s.

(* ================================================================== *)
(** ** SHA-256 (FIPS 180-4), as [Sha256.update] / [digestSync] compute it *)

Module SHA256.

Definition add32 (x y : Z) : Z := (x + y) mod 2 ^ 32.

Definition rotr (n x : Z) : Z :=
  Z.lor (Z.shiftr x n) (Z.shiftl x (32 - n) mod 2 ^ 32).

Definition Ch (x y z : Z) : Z :=
  Z.lxor (Z.land x y) (Z.land (Z.lxor x 0xffffffff) z).

Definition Maj (x y z : Z) : Z :=
  Z.lxor (Z.lxor (Z.land x y) (Z.land x z)) (Z.land y z).

Definition Sigma0 (x : Z) : Z := Z.lxor (Z.lxor (rotr 2 x) (rotr 13 x)) (rotr 22 x).
Definition Sigma1 (x : Z) : Z := Z.lxor (Z.lxor (rotr 6 x) (rotr 11 x)) (rotr 25 x).
Definition sigma0 (x : Z) : Z := Z.lxor (Z.lxor (rotr 7 x) (rotr 18 x)) (Z.shiftr x 3).
Definition sigma1 (x : Z) : Z := Z.lxor (Z.lxor (rotr 17 x) (rotr 19 x)) (Z.shiftr x 10).

(** The round constants are the first 32 bits of the fractional parts of
    the cube roots of the first 64 primes, and the initial registers those of
    the square roots of the first eight. *)
Definition is_prime (n : Z) : bool :=
  forallb (fun d => negb (n mod Z.of_nat d =? 0)) (seq 2 (Z.to_nat n - 2)).

Definition primes : list Z := filter is_prime (map Z.of_nat (seq 2 310)).

(** The integer cube root, one bit after the other from bit 35 down. *)
Definition cube_root (n : Z) : Z :=
  fold_left (fun r i => let c := r + 2 ^ Z.of_nat i in if c * c * c <=? n then c else r)
            (rev (seq 0 36)) 0.

Definition K : list Z :=
  Eval vm_compute in map (fun p => cube_root (p * 2 ^ 96) mod 2 ^ 32) primes.

Definition H0 : list Z :=
  Eval vm_compute in map (fun p => Z.sqrt (p * 2 ^ 64) mod 2 ^ 32) (firstn 8 primes).

(** The eight working registers a..h. *)
Record regs : Type :=
  Regs { ra : Z; rb : Z; rc : Z; rd : Z; re : Z; rf : Z; rg : Z; rh : Z }.

Definition init : regs :=
  Regs (nth 0 H0 0) (nth 1 H0 0) (nth 2 H0 0) (nth 3 H0 0)
       (nth 4 H0 0) (nth 5 H0 0) (nth 6 H0 0) (nth 7 H0 0).

(** The message schedule, most recent word first while it grows. *)
Fixpoint extend (n : nat) (r : list Z) : list Z :=
  match n with
  | O => r
  | S k =>
      extend k
        (add32 (add32 (sigma1 (nth 1 r 0)) (nth 6 r 0))
               (add32 (sigma0 (nth 14 r 0)) (nth 15 r 0)) :: r)
  end.

Definition schedule (block : list Z) : list Z := rev (extend 48 (rev block)).

Definition round (s : regs) (kw : Z * Z) : regs :=
  let t1 :=
    add32 (add32 (add32 (rh s) (Sigma1 (re s))) (Ch (re s) (rf s) (rg s)))
          (add32 (fst kw) (snd kw)) in
  let t2 := add32 (Sigma0 (ra s)) (Maj (ra s) (rb s) (rc s)) in
  Regs (add32 t1 t2) (ra s) (rb s) (rc s) (add32 (rd s) t1) (re s) (rf s) (rg s).

Definition compress (s : regs) (block : list Z) : regs :=
  let t := fold_left round (combine K (schedule block)) s in
  Regs (add32 (ra s) (ra t)) (add32 (rb s) (rb t)) (add32 (rc s) (rc t))
       (add32 (rd s) (rd t)) (add32 (re s) (re t)) (add32 (rf s) (rf t))
       (add32 (rg s) (rg t)) (add32 (rh s) (rh t)).

(** Padding: a [0x80] byte, zeros, and the bit length on eight bytes. *)
Definition be_bytes (n : nat) (v : Z) : list Z :=
  map (fun i => Z.shiftr v (8 * Z.of_nat i) mod 256) (rev (seq 0 n)).

Definition pad (msg : list Z) : list Z :=
  let len := Z.of_nat (length msg) in
  msg ++ [0x80] ++ repeat 0 (Z.to_nat ((55 - len) mod 64)) ++ be_bytes 8 (8 * len).

Definition word_of (b : list Z) : Z :=
  fold_left (fun acc x => 256 * acc + x) b 0.

Fixpoint words (n : nat) (l : list Z) : list Z :=
  match n with
  | O => []
  | S k => word_of (firstn 4 l) :: words k (skipn 4 l)
  end.

Fixpoint blocks (n : nat) (l : list Z) : list (list Z) :=
  match n with
  | O => []
  | S k => words 16 (firstn 64 l) :: blocks k (skipn 64 l)
  end.

Definition word_bytes (w : Z) : Buffer :=
  [ byte_of_Z (Z.shiftr w 24); byte_of_Z (Z.shiftr w 16);
    byte_of_Z (Z.shiftr w 8); byte_of_Z w ].

Definition digest_bytes (s : regs) : Buffer :=
  word_bytes (ra s) ++ word_bytes (rb s) ++ word_bytes (rc s) ++ word_bytes (rd s)
  ++ word_bytes (re s) ++ word_bytes (rf s) ++ word_bytes (rg s) ++ word_bytes (rh s).

Definition sha256 (msg : Buffer) : Buffer :=
  let p := pad (map Z_of_byte msg) in
  digest_bytes (fold_left compress (blocks (length p / 64) p) init).

End SHA256.

Definition sha256 := SHA256.sha256.

Definition hex_digit (a : ascii) : Z :=
  let n := Z.of_nat (nat_of_ascii a) in
  if (48 <=? n) && (n <=? 57) then n - 48
  else if (97 <=? n) && (n <=? 102) then n - 87
  else 0.

(** A buffer written in hexadecimal, for the test vectors. *)
Fixpoint of_hex (s : string) : Buffer :=
  match s with
  | String a (String b rest) => byte_of_Z (16 * hex_digit a + hex_digit b) :: of_hex rest
  | _ => []
  end.


(* ================================================================== *)
(** ** Errors *)

(** The [Error]s the [ton] library throws on the paths the source takes. *)
Inductive Error : Type :=
| InvalidIndex           (* "Invalid index: 1024": a write past the bit string *)
| BitLengthTooSmall      (* "bitLength is too small for a value ..." *)
| OnlyStdAddress         (* "Only STD address supported" *)
| EndOfSlice.            (* a read past the end of a slice *)

Inductive result (A : Type) : Type :=
| Ok (a : A)
| Err (e : Error).

Arguments Ok {A} a.
Arguments Err {A} e.

Definition bind {A B : Type} (r : result A) (f : A -> result B) : result B :=
  match r with
  | Ok a => f a
  | Err e => Err e
  end.

Notation "x <- c ;; k" := (bind c (fun x => k))
  (at level 61, c at next level, right associativity).
(** Method chaining: [b |> f] runs [f] on the builder [b] unless [b] threw. *)
Notation "b |> f" := (bind b f) (at level 50, left associativity).

(* ================================================================== *)
(** ** Cells, builders and slices of the [ton] library *)

(** An ordinary cell: its bits and its references. *)
#[warnings="-register-all"]
Inductive Cell : Type :=
| mkCell (bits : list bool) (refs : list Cell).

Definition cell_bits (c : Cell) : list bool := let (b, _) := c in b.
Definition cell_refs (c : Cell) : list Cell := let (_, r) := c in r.

Record Address : Type := mkAddress { workChain : Z; hash : Buffer }.

Record Builder : Type := mkBuilder { b_bits : list bool; b_refs : list Cell }.

(** [beginCell()]: a builder over [BitString.alloc(1023)]. *)
Definition beginCell : result Builder := Ok (mkBuilder [] []).

(** The bits a builder takes. [BitString.alloc(1023)] allocates 128 bytes,
    and [checkRange] refuses an index only when it is greater than the
    length 1023: the index 1023 is written, the index 1024 is the first one
    refused. *)
Definition capacity : nat := 1024.

(** A run of [writeBit]s: the write at the index 1024 throws. *)
Definition writeBits (bs : list bool) (b : Builder) : result Builder :=
  if (length (b_bits b) + length bs <=? capacity)%nat
  then Ok (mkBuilder (b_bits b ++ bs) (b_refs b))
  else Err InvalidIndex.

(** [value.toString(2).length] of bn.js: the binary digits of the absolute
    value (one digit for zero), and the sign of a negative number. *)
Definition toString2_length (v : Z) : nat :=
  (if v <? 0 then 1%nat else 0%nat)
  + (if v =? 0 then 1%nat else Z.to_nat (Z.log2 (Z.abs v) + 1)).

(** [v.toString(2, n)] read at the indices [0 .. n-1], a character other
    than ['1'] giving a zero bit: a negative number's string starts with its
    sign, so its digits are written shifted by one place. *)
Definition toString2_bits (v : Z) (n : nat) : list bool :=
  if v <? 0 then false :: firstn (n - 1) (uint_bits n (Z.abs v))
  else uint_bits n v.

(** [BitString.writeUint(value, bitLength)]. *)
Definition storeUint (v : Z) (n : nat) (b : Builder) : result Builder :=
  if (n =? 0)%nat || (n <? toString2_length v)%nat
  then if v =? 0 then Ok b else Err BitLengthTooSmall
  else writeBits (toString2_bits v n) b.

Definition storeBit (x : bool) (b : Builder) : result Builder := writeBits [x] b.

(** [BitString.writeInt(value, bitLength)]: sign bit, then the magnitude
    in two's complement. *)
Definition storeInt (v : Z) (n : nat) (b : Builder) : result Builder :=
  if (n =? 1)%nat then
    if v =? -1 then storeBit true b
    else if v =? 0 then storeBit false b
    else Err BitLengthTooSmall
  else if v <? 0 then storeBit true b |> storeUint (2 ^ Z.of_nat (n - 1) + v) (n - 1)
  else storeBit false b |> storeUint v (n - 1).

(** [BitString.writeBuffer]: each byte through [writeUint8]. *)
Definition storeBuffer (buf : Buffer) (b : Builder) : result Builder :=
  writeBits (bytes_bits buf) b.

(** [amount.toString(16).length] of bn.js. *)
Definition toString16_length (v : Z) : Z :=
  (if v <? 0 then 1 else 0) + (if v =? 0 then 1 else Z.log2 (Z.abs v) / 4 + 1).

(** [BitString.writeCoins]: a four-bit byte count, then the amount. *)
Definition storeCoins (amount : Z) (b : Builder) : result Builder :=
  if amount =? 0 then storeUint 0 4 b
  else
    let l := (toString16_length amount + 1) / 2 in
    storeUint l 4 b |> storeUint amount (Z.to_nat (l * 8)).

(** [BitString.writeAddress] of an address that is not [null]: the tag
    [10] of a standard address, no anycast, workchain and hash. *)
Definition storeAddress (a : Address) (b : Builder) : result Builder :=
  storeUint 2 2 b |> storeUint 0 1 |> storeInt (workChain a) 8 |> storeBuffer (hash a).

Definition storeRef (c : Cell) (b : Builder) : result Builder :=
  Ok (mkBuilder (b_bits b) (b_refs b ++ [c])).

(** [Builder.storeDict(src)]: a presence bit, and the reference when there
    is one. *)
Definition storeDict (src : option Cell) (b : Builder) : result Builder :=
  match src with
  | Some c => storeBit true b |> storeRef c
  | None => storeBit false b
  end.

Definition endCell (b : result Builder) : result Cell :=
  b |> (fun x => Ok (mkCell (b_bits x) (b_refs x))).

(** A slice being read: the bits that are left. *)
Definition Slice := list bool.

Definition beginParse (c : Cell) : Slice := cell_bits c.

Definition readUint (n : nat) (s : Slice) : result (Z * Slice) :=
  if (n <=? length s)%nat then Ok (bits_to_Z (firstn n s), skipn n s)
  else Err EndOfSlice.

Definition readInt (n : nat) (s : Slice) : result (Z * Slice) :=
  x <- readUint n s ;;
  Ok (if Z.testbit (fst x) (Z.of_nat n - 1) then fst x - 2 ^ Z.of_nat n else fst x, snd x).

Definition readBuffer (n : nat) (s : Slice) : result (Buffer * Slice) :=
  if (8 * n <=? length s)%nat then Ok (bits_bytes (firstn (8 * n) s), skipn (8 * n) s)
  else Err EndOfSlice.

(** [Slice.readAddress()]: [null] for the tag [00], a standard address
    without anycast for the tag [10]. *)
Definition readAddress (s : Slice) : result (option Address) :=
  t <- readUint 2 s ;;
  if fst t =? 0 then Ok None
  else if negb (fst t =? 2) then Err OnlyStdAddress
  else
    a <- readUint 1 (snd t) ;;
    if negb (fst a =? 0) then Err OnlyStdAddress
    else
      wc <- readInt 8 (snd a) ;;
      h <- readBuffer 32 (snd wc) ;;
      Ok (Some (mkAddress (fst wc) (fst h))).

(** *** The representation hash of a cell, [Cell.hash()] *)

Fixpoint cell_depth (c : Cell) : nat :=
  match c with
  | mkCell _ refs =>
      match refs with
      | [] => O
      | _ => S (fold_right Nat.max O (map cell_depth refs))
      end
  end.

(** [getMaxDepthAsArray]: the depth on two bytes. *)
Definition depth_bytes (d : nat) : Buffer :=
  [byte_of_Z (Z.of_nat d / 256); byte_of_Z (Z.of_nat d)].

(** [getTopUppedArray]: a bit string that does not fill its last byte is
    completed by a one and zeros. *)
Definition topUpped (bits : list bool) : list bool :=
  match ((8 - length bits mod 8) mod 8)%nat with
  | O => bits
  | S k => bits ++ true :: repeat false k
  end.

(** The two descriptor bytes: the number of references, and
    [ceil(bits / 8) + floor(bits / 8)]. *)
Definition descriptors (bits : list bool) (refs : list Cell) : Buffer :=
  [ byte_of_Z (Z.of_nat (length refs));
    byte_of_Z (Z.of_nat ((length bits + 7) / 8 + length bits / 8)) ].

Fixpoint cell_hash (c : Cell) : Buffer :=
  match c with
  | mkCell bits refs =>
      sha256 (descriptors bits refs
              ++ bits_bytes (topUpped bits)
              ++ flat_map (fun r => depth_bytes (cell_depth r)) refs
              ++ flat_map cell_hash refs)
  end.

(** The bytes [Cell.hash()] digests. *)
Definition cell_repr (c : Cell) : Buffer :=
  descriptors (cell_bits c) (cell_refs c)
  ++ bits_bytes (topUpped (cell_bits c))
  ++ flat_map (fun r => depth_bytes (cell_depth r)) (cell_refs c)
  ++ flat_map cell_hash (cell_refs c).

(* ================================================================== *)
(** ** [Buffer.from(s, "base64")] *)

(** The value of a base64 character; the URL-safe [-] and [_] count too. *)
Definition unbase64 (a : ascii) : option Z :=
  let n := Z.of_nat (nat_of_ascii a) in
  if (65 <=? n) && (n <=? 90) then Some (n - 65)
  else if (97 <=? n) && (n <=? 122) then Some (n - 71)
  else if (48 <=? n) && (n <=? 57) then Some (n + 4)
  else if (n =? 43) || (n =? 45) then Some 62
  else if (n =? 47) || (n =? 95) then Some 63
  else None.

(** The UTF-16 code units of a JavaScript string, read off its UTF-8 bytes:
    one unit for a character of one, two or three bytes, a surrogate pair
    for a character of four.  Bytes that are no UTF-8 stand for no
    JavaScript string; a byte that starts no character counts there as
    U+FFFD. *)
Definition continuation (b : Z) : bool := (128 <=? b) && (b <? 192).

Fixpoint utf16_of_utf8 (l : list Z) : list Z :=
  match l with
  | [] => []
  | b1 :: r1 =>
      if b1 <? 128 then b1 :: utf16_of_utf8 r1
      else
        match r1 with
        | [] => [65533]
        | b2 :: r2 =>
            if (192 <=? b1) && (b1 <? 224) && continuation b2
            then ((b1 - 192) * 64 + (b2 - 128)) :: utf16_of_utf8 r2
            else
              match r2 with
              | [] => 65533 :: utf16_of_utf8 r1
              | b3 :: r3 =>
                  if (224 <=? b1) && (b1 <? 240) && continuation b2 && continuation b3
                  then ((b1 - 224) * 4096 + (b2 - 128) * 64 + (b3 - 128))
                       :: utf16_of_utf8 r3
                  else
                    match r3 with
                    | [] => 65533 :: utf16_of_utf8 r1
                    | b4 :: r4 =>
                        if (240 <=? b1) && (b1 <? 248) && continuation b2
                           && continuation b3 && continuation b4
                        then
                          let cp := (b1 - 240) * 262144 + (b2 - 128) * 4096
                                    + (b3 - 128) * 64 + (b4 - 128) - 65536 in
                          (55296 + cp / 1024) :: (56320 + cp mod 1024)
                          :: utf16_of_utf8 r4
                        else 65533 :: utf16_of_utf8 r1
                    end
              end
        end
  end.

Definition utf16 (s : string) : list Z := utf16_of_utf8 (map Z_of_byte (utf8 s)).

(** The decoder looks a code unit up by its low byte: [unbase64(uint8_t)]
    truncates the unit. *)
Definition low_byte (unit : Z) : ascii := ascii_of_nat (Z.to_nat (unit mod 256)).

(** The decoder is forgiving: a unit whose low byte is outside the alphabet
    is skipped, and the first unit whose low byte is [=] ends the input. *)
Fixpoint sextets (units : list Z) : list Z :=
  match units with
  | [] => []
  | unit :: rest =>
      if Ascii.eqb (low_byte unit) "="%char then []
      else match unbase64 (low_byte unit) with
           | Some v => v :: sextets rest
           | None => sextets rest
           end
  end.

Definition Buffer_from_base64 (s : string) : Buffer :=
  bits_bytes (flat_map (uint_bits 6) (sextets (utf16 s))).

(* ================================================================== *)
(** ** contracts/sources-registry.ts *)

Definition prepareKey (verifierId codeCell : string) : Buffer :=
  sha256 (utf8 (verifierId ++ ":" ++ codeCell)%string).

Section SourceItemCode.

(** [Cell.fromBoc(sourceItemHex)[0]]: the compiled code of a source item,
    read from [build/source-item.compiled.json]. *)
Variable sourceItemCode : Cell.

Definition keyToAddress (verifierId codeCell : string) (registryAddress : Address)
  : result (option Address) :=
  data <- endCell (beginCell
                   |> storeBuffer (prepareKey verifierId codeCell)
                   |> storeAddress registryAddress) ;;
  si <- endCell (beginCell
                 |> storeUint 0 2
                 |> storeDict (Some sourceItemCode)
                 |> storeDict (Some data)
                 |> storeUint 0 1) ;;
  c <- endCell (beginCell
                |> storeUint 4 3
                |> storeInt 0 8
                |> storeUint (BN_of_bytes (cell_hash si)) 256) ;;
  readAddress (beginParse c).

(** The contract storage, as [save_data()] lays it out. *)
Definition data (minTons maxTons : Z) (verifierRegistryAddress admin : Address)
  : result Cell :=
  endCell (beginCell
           |> storeCoins minTons
           |> storeCoins maxTons
           |> storeAddress admin
           |> storeAddress verifierRegistryAddress
           |> storeRef sourceItemCode).

End SourceItemCode.

Definition toSha256Buffer (s : string) : Buffer := sha256 (utf8 s).

(** The message encoders.  In [deploySource] the cell of the pointer is the
    argument of the last call of the chain, so it is built once the four
    fields before it are stored. *)
Definition deploySource (verifierId codeCellHash jsonURL : string) : result Cell :=
  b <- beginCell
       |> storeUint 1002 32
       |> storeUint 0 64
       |> storeBuffer (toSha256Buffer verifierId)
       |> storeUint (BN_of_bytes (Buffer_from_base64 codeCellHash)) 256 ;;
  ref <- endCell (beginCell |> storeBuffer (utf8 jsonURL)) ;;
  endCell (storeRef ref b).

Definition changeVerifierRegistry (newVerifierRegistry : Address) : result Cell :=
  endCell (beginCell
           |> storeUint 2003 32
           |> storeUint 0 64
           |> storeAddress newVerifierRegistry).

Definition changeAdmin (newAdmin : Address) : result Cell :=
  endCell (beginCell |> storeUint 3004 32 |> storeUint 0 64 |> storeAddress newAdmin).

Definition setSourceItemCode (newCode : Cell) : result Cell :=
  endCell (beginCell |> storeUint 4005 32 |> storeUint 0 64 |> storeRef newCode).

Definition changeCode (newCode : Cell) : result Cell :=
  endCell (beginCell |> storeUint 5006 32 |> storeUint 0 64 |> storeRef newCode).

Definition setDeploymentCosts (minTon maxTon : Z) : result Cell :=
  endCell (beginCell
           |> storeUint 6007 32
           |> storeUint 0 64
           |> storeCoins minTon
           |> storeCoins maxTon).

(* ================================================================== *)
(** ** The key pair and the address derivation in the spec's words *)

Fixpoint Buffer_eqb (x y : Buffer) : bool :=
  match x, y with
  | [], [] => true
  | a :: x', b :: y' => Byte.eqb a b && Buffer_eqb x' y'
  | _, _ => false
  end.

Definition Address_eqb (a b : Address) : bool :=
  (workChain a =? workChain b) && Buffer_eqb (hash a) (hash b).

Section AddressDerivation.

Variable childCodeTemplate : Cell.

(** In the spec's words (4.2): the child's initial storage is the tuple
    (verifierKey, contentKey, registryAddress, empty-content-marker), the
    marker being an absent optional reference. *)
Definition initialStorage_spec (verifierKey contentKey : Z) (registryAddress : Address)
  : result Cell :=
  endCell (beginCell
           |> storeUint verifierKey 256
           |> storeUint contentKey 256
           |> storeAddress registryAddress
           |> storeDict None).

(** In the spec's words (4.1, 4.2): the storage paired with the code
    template, and the digest of the pair tagged as an address of
    workchain 0; with [verifierKey = digest(submitterIdentity)] and
    [contentKey = rawBytes(contentHash)]. *)
Definition deriveAddress_spec (verifierKey contentKey : Z) (registryAddress : Address)
  : result (option Address) :=
  storage <- initialStorage_spec verifierKey contentKey registryAddress ;;
  image <- endCell (beginCell
                    |> storeUint 0 2
                    |> storeDict (Some childCodeTemplate)
                    |> storeDict (Some storage)
                    |> storeUint 0 1) ;;
  Ok (Some (mkAddress 0 (cell_hash image))).

Definition AddressDerivation_spec (submitterIdentity contentHash : string)
    (registryAddress : Address) : result (option Address) :=
  deriveAddress_spec (BN_of_bytes (toSha256Buffer submitterIdentity))
                     (BN_of_bytes (Buffer_from_base64 contentHash))
                     registryAddress.

End AddressDerivation.

(* ================================================================== *)
(** ** The vocabulary of the statements *)

(** The eight bits [writeInt(v, 8)] leaves for a workchain of one signed
    byte. *)
Definition int8_bits (v : Z) : list bool :=
  (v <? 0) :: uint_bits 7 (if v <? 0 then 128 + v else v).

(** The 267 bits of a standard address. *)
Definition address_bits (a : Address) : list bool :=
  [true; false; false] ++ int8_bits (workChain a) ++ bytes_bits (hash a).

(** An address as the chain knows it: a workchain of one signed byte and a
    hash of 256 bits. *)
Definition valid_address (a : Address) : Prop :=
  -128 <= workChain a < 128 /\ length (hash a) = 32%nat.

Definition dataCell (verifierId codeCell : string) (registryAddress : Address) : Cell :=
  mkCell (bytes_bits (prepareKey verifierId codeCell) ++ address_bits registryAddress) [].

Definition stateInit (code data : Cell) : Cell :=
  mkCell [false; false; true; true; false] [code; data].

(** Induction over a cell with the property at hand for every reference. *)
Fixpoint Cell_induction (P : Cell -> Prop)
    (step : forall bits refs, Forall P refs -> P (mkCell bits refs)) (c : Cell) : P c :=
  match c with
  | mkCell bits refs =>
      step bits refs
        ((fix all (l : list Cell) : Forall P l :=
            match l with
            | [] => Forall_nil P
            | r :: l' => Forall_cons r (Cell_induction P step r) (all l')
            end) refs)
  end.

(** A cell as a bag of cells holds it: at most 1023 bits and four
    references, all the way down. *)
#[warnings="-register-all"]
Inductive wf_cell : Cell -> Prop :=
| wf_mkCell (bits : list bool) (refs : list Cell) :
    (length bits <= 1023)%nat -> (length refs <= 4)%nat -> Forall wf_cell refs ->
    wf_cell (mkCell bits refs).

(** Every byte string [Cell.hash()] digests on the way through a cell. *)
Fixpoint cell_reprs (c : Cell) : list Buffer :=
  match c with
  | mkCell bits refs => cell_repr (mkCell bits refs) :: flat_map cell_reprs refs
  end.

(** No two of the byte strings [xs] share their SHA-256 digest. *)
Definition collision_free (xs : list Buffer) : Prop :=
  forall x y, In x xs -> In y xs -> sha256 x = sha256 y -> x = y.

(** The bytes [prepareKey] digests: the identity, a colon, the code cell. *)
Definition key_preimage (verifierId codeCell : string) : Buffer :=
  utf8 verifierId ++ x3a :: utf8 codeCell.

(** A content hash without the separator, as every base64 text is. *)
Definition no_separator (codeCell : string) : Prop := ~ In x3a (utf8 codeCell).

(** [EQBfL6AgP-lNiYXFADmcD5yFPwK9DXhaLNlZl-9cWJAJEmQe], the registry. *)
Definition registry_address : Address :=
  mkAddress 0 (of_hex "5f2fa0203fe94d8985c500399c0f9c853f02bd0d785a2cd95997ef5c58900912").

(** [EQDZeSc_Mwu7YKcjopglrDLpLZsHGD5z1TK0xzEhD5ic8kBn], the verifier registry
    of [initData]. *)
Definition verifier_registry_address : Address :=
  mkAddress 0 (of_hex "d979273f330bbb60a723a29825ac32e92d9b07183e73d532b4c731210f989cf2").

(** [EQDerEPTIh0O8lBdjWc6aLaJs5HYqlfBN2Ruj1lJQH_6vcaZ], the admin of
    [initData]. *)
Definition admin_address : Address :=
  mkAddress 0 (of_hex "deac43d3221d0ef2505d8d673a68b689b391d8aa57c137646e8f5949407ffabd").

(** [beginCell().storeBit(1).endCell()], the code cell of the tests. *)
Definition newCodeCell : Cell := mkCell [true] [].

(** [specs[0]] of the tests. *)
Definition spec_verifier : string := "my verifier".
Definition spec_codeCellHash : string := "E/XXoxbG124QU+iKxZtd5loHKjiEUTcdxcW+y7oT9Q4=".
Definition spec_jsonURL : string := "https://myjson.com/sources.json".

(** The byte strings digested while [keyToAddress] runs. *)
Definition keyToAddress_preimages (code : Cell) (verifierId codeCell : string)
    (registryAddress : Address) : list Buffer :=
  key_preimage verifierId codeCell
  :: cell_reprs (stateInit code (dataCell verifierId codeCell registryAddress)).

(** Exactly one of identity, content hash, registry address and code
    template differs. *)
Definition one_input_changed (x y : string * string * Address * Cell) : Prop :=
  let '(v1, c1, r1, t1) := x in
  let '(v2, c2, r2, t2) := y in
  (v1 <> v2 /\ c1 = c2 /\ r1 = r2 /\ t1 = t2)
  \/ (v1 = v2 /\ c1 <> c2 /\ r1 = r2 /\ t1 = t2)
  \/ (v1 = v2 /\ c1 = c2 /\ r1 <> r2 /\ t1 = t2)
  \/ (v1 = v2 /\ c1 = c2 /\ r1 = r2 /\ t1 <> t2).

(** [collision_free], decided by hashing every byte string once. *)
Definition collision_freeb (xs : list Buffer) : bool :=
  let hs := map (fun x => (x, sha256 x)) xs in
  forallb (fun p =>
    forallb (fun q => negb (Buffer_eqb (snd p) (snd q)) || Buffer_eqb (fst p) (fst q)) hs)
    hs.

(** Two different byte strings with one SHA-256 digest. *)
Definition digest_collision (x y : Buffer) : Prop := x <> y /\ sha256 x = sha256 y.

(** The operation tag and the query identifier, read the way the contract
    reads a message body: 32 bits, then 64 bits. *)
Definition op_of (c : Cell) : option Z :=
  match readUint 32 (beginParse c) with
  | Ok (op, _) => Some op
  | Err _ => None
  end.

Definition query_id_of (c : Cell) : option Z :=
  match readUint 32 (beginParse c) with
  | Ok (_, rest) =>
      match readUint 64 rest with
      | Ok (q, _) => Some q
      | Err _ => None
      end
  | Err _ => None
  end.

(** What every encoder starts with. *)
Definition header (op : Z) : result Builder :=
  beginCell |> storeUint op 32 |> storeUint 0 64.

Definition header_bits (op : Z) : list bool := uint_bits 32 op ++ uint_bits 64 0.

(** A store that returns leaves the bits written before it in place. *)
Definition keeps_bits (f : Builder -> result Builder) : Prop :=
  forall b b', f b = Ok b' -> exists l, b_bits b' = b_bits b ++ l.

(** [new BN(Buffer.from(codeCellHash, "base64"))]. *)
Definition contentKey_of (codeCellHash : string) : Z :=
  BN_of_bytes (Buffer_from_base64 codeCellHash).

(** A pointer of 202 bytes. *)
Definition long_jsonURL : string :=
  "https://myjson.com/a/very/long/path/0123456789/0123456789/0123456789/0123456789/0123456789/0123456789/0123456789/0123456789/0123456789/0123456789/0123456789/0123456789/0123456789/0123456789/sources.json".

Definition is_base64_char (a : ascii) : bool :=
  let n := Z.of_nat (nat_of_ascii a) in
  ((65 <=? n) && (n <=? 90)) || ((97 <=? n) && (n <=? 122))
  || ((48 <=? n) && (n <=? 57)) || (n =? 43) || (n =? 47).

(** Padding characters taken off the end, two at most. *)
Definition strip_padding (l : list ascii) : list ascii :=
  match rev l with
  | "="%char :: "="%char :: r => rev r
  | "="%char :: r => rev r
  | _ => l
  end.

(** Well-formed base64 in the spec's sense (RFC 4648): groups of four
    characters of the alphabet, the last one padded by at most two [=]. *)
Definition well_formed_base64 (s : string) : bool :=
  let l := list_ascii_of_string s in
  (length l mod 4 =? 0)%nat && forallb is_base64_char (strip_padding l).


(* ================================================================== *)
(** ** The rest of the source, and the readers of the [ton] library *)

(** [toString(10)] of bn.js: the decimal digits, a single [0] for zero, a
    sign before those of a negative number. *)
Definition BN_toString (v : Z) : string :=
  DecimalString.NilZero.string_of_int (Z.to_int v).

(** [keyToIntString]: [new BN(key, "hex")] of a buffer reads its bytes as
    one big-endian number, whatever the base given. *)
Definition keyToIntString (key : Buffer) : string := BN_toString (BN_of_bytes key).

(** [Slice.readCoins()]: the four-bit byte count, then that many bytes as
    one big-endian number. *)
Definition readCoins (s : Slice) : result (Z * Slice) :=
  l <- readUint 4 s ;;
  if fst l =? 0 then Ok (0, snd l)
  else
    b <- readBuffer (Z.to_nat (fst l)) (snd l) ;;
    Ok (BN_of_bytes (fst b), snd b).

(** [Slice.readAddress()] together with the slice it leaves. *)
Definition readAddress_rest (s : Slice) : result (option Address * Slice) :=
  t <- readUint 2 s ;;
  if fst t =? 0 then Ok (None, snd t)
  else if negb (fst t =? 2) then Err OnlyStdAddress
  else
    a <- readUint 1 (snd t) ;;
    if negb (fst a =? 0) then Err OnlyStdAddress
    else
      wc <- readInt 8 (snd a) ;;
      h <- readBuffer 32 (snd wc) ;;
      Ok (Some (mkAddress (fst wc) (fst h)), snd h).

(** The number of bytes [writeCoins] announces for an amount. *)
Definition coins_length (amount : Z) : Z := (toString16_length amount + 1) / 2.

(** The bits of an amount that [writeCoins] accepts. *)
Definition coins_bits (amount : Z) : list bool :=
  if amount =? 0 then uint_bits 4 0
  else uint_bits 4 (coins_length amount)
       ++ uint_bits (Z.to_nat (coins_length amount * 8)) amount.

(** A message body read back with the library's readers, in the order the
    encoder stores: the tag and the query identifier first. *)
Definition read_header (c : Cell) : result (Z * Z * Slice) :=
  op <- readUint 32 (beginParse c) ;;
  q <- readUint 64 (snd op) ;;
  Ok (fst op, fst q, snd q).

(** The fields of a [setDeploymentCosts] message: tag, query identifier,
    minimum, maximum. *)
Definition read_costs (c : Cell) : result (Z * Z * Z * Z) :=
  h <- read_header c ;;
  mn <- readCoins (snd h) ;;
  mx <- readCoins (snd mn) ;;
  Ok (fst (fst h), snd (fst h), fst mn, fst mx).

(** The fields of a message that carries one address. *)
Definition read_address_message (c : Cell) : result (Z * Z * option Address) :=
  h <- read_header c ;;
  a <- readAddress (snd h) ;;
  Ok (fst (fst h), snd (fst h), a).

(** The storage cell read in the order [data] stores it. *)
Definition read_data (c : Cell)
  : result (Z * Z * option Address * option Address * list Cell) :=
  mn <- readCoins (beginParse c) ;;
  mx <- readCoins (snd mn) ;;
  ad <- readAddress_rest (snd mx) ;;
  vr <- readAddress_rest (snd ad) ;;
  Ok (fst mn, fst mx, fst ad, fst vr, cell_refs c).

(** The fields of a [deploySource] message: tag, query identifier, the two
    keys as 256-bit numbers, what is left of the bits, and the bytes of
    each reference. *)
Definition read_deploy (c : Cell) : result (Z * Z * Z * Z * Slice * list Buffer) :=
  h <- read_header c ;;
  vk <- readUint 256 (snd h) ;;
  ck <- readUint 256 (snd vk) ;;
  Ok (fst (fst h), snd (fst h), fst vk, fst ck, snd ck,
      map (fun r => bits_bytes (beginParse r)) (cell_refs c)).


(** A decimal text read as a number, when it is one. *)
Definition parse_decimal (s : string) : option Z :=
  option_map Z.of_int (DecimalString.NilZero.int_of_string s).

(** *** build/sources-registry.deploy.ts *)

Module Deploy.

(** The two arguments [childAddressFromChain] passes to the getter
    [get_source_item_address]: [new BN(...).toString()] of the digest of
    the verifier and of the decoded content hash. *)
Definition childAddressFromChain_args (verifier codeCellHash : string) : string * string :=
  (BN_toString (BN_of_bytes (toSha256Buffer verifier)),
   BN_toString (BN_of_bytes (Buffer_from_base64 codeCellHash))).

(** [Slice.readRemainingBytes()]: the bytes that are left, when whole bytes
    are left; [None] stands for the exception. *)
Definition readRemainingBytes (s : Slice) : option Buffer :=
  if (length s mod 8 =? 0)%nat then Some (bits_bytes s) else None.

(** [buffer.toString("ascii")]: each byte without its highest bit. *)
Definition toString_ascii (buf : Buffer) : string :=
  string_of_list_byte (map (fun b => byte_of_Z (Z.land (Z_of_byte b) 127)) buf).

(** [parseUrlFromGetSourceItemData], from the fifth entry of the getter's
    result on: [Some None] is [null], [None] the exception of the reader. *)
Definition parseUrlFromGetSourceItemData (result4 : option Cell) : option (option string) :=
  match result4 with
  | Some c =>
      match readRemainingBytes (beginParse c) with
      | Some buf => Some (Some (toString_ascii buf))
      | None => None
      end
  | None => Some None
  end.

End Deploy.

(* ================================================================== *)
(** ** The registry and the child record *)

(** The two contracts, [sources-registry.fc] and [source-item.fc], are not
    among the sources: only their encoders and their tests are.  Every
    definition of this module follows the spec, sections 3, 4.3, 4.5 and 6,
    and the order of the checks follows the tests. *)
Module Registry.

(** Modelled from the spec: RegistryState (3), the storage of the registry
    contract, which is not among the sources. *)
Record RegistryState : Type := mkState {
  admin : Address;
  verifierSource : Address;
  minFee : Z;
  maxFee : Z;
  childCodeTemplate : Cell
}.

(** Modelled from the spec: the execution context of a message (4.3), the
    sender and the value attached. *)
Record ExecutionContext : Type := mkContext {
  senderAddress : Address;
  attachedValue : Z
}.

(** Modelled from the spec: the operations of the dispatch table (4.3, 6),
    once decoded; a deploy carries the digest of the identity, the content
    hash and the pointer. *)
Inductive Message : Type :=
| DeploySource (verifierKey contentKey : Z) (contentPointer : Buffer)
| ChangeVerifierSource (newAddress : Address)
| ChangeAdmin (newAddress : Address)
| SetChildCodeTemplate (newCode : Cell)
| ReplaceRegistryCode (newCode : Cell)
| SetFeeBounds (newMin newMax : Z)
| UnknownOperation (tag : Z).

(** Modelled from the spec: ChildRecordState (3, 4.5), the storage of the
    child contract, which is not among the sources. *)
Record ChildRecordState : Type := mkChild {
  verifierKey : Z;
  contentKey : Z;
  registryAddress : Address;
  contentPointer : option Buffer
}.

(** Modelled from the spec: the one message a child takes (4.5). *)
Inductive ChildMessage : Type :=
| SetContentPointer (pointer : Buffer).

(** Modelled from the spec: what the registry emits (4.3): the creation of
    a child with its first message, or the replacement of its own code. *)
Inductive Action : Type :=
| CreateChild (dest : Address) (code : Cell) (init : ChildRecordState)
              (body : ChildMessage)
| ReplaceCode (newCode : Cell).

(** Modelled from the spec: [(newState, action?) | Rejection] (4.3). *)
Inductive Outcome : Type :=
| Applied (newState : RegistryState) (action : option Action)
| Rejected (code : Z).

(** Modelled from the spec: the result codes (6). *)
Definition unauthorized : Z := 401.
Definition value_below_minimum : Z := 900.
Definition value_above_maximum : Z := 901.
Definition empty_code : Z := 902.
Definition minimum_below_floor : Z := 903.
Definition unrecognized_operation : Z := 65535.

(** Modelled from the spec: an empty code cell (4.3), the cell
    [beginCell().endCell()] of the tests. *)
Definition is_empty (c : Cell) : bool :=
  match c with
  | mkCell [] [] => true
  | _ => false
  end.

Section StateMachine.

(** Modelled from the spec: the fixed protocol-defined lower bound of the
    minimum fee (4.3), a constant of the contract's [imports/constants.fc],
    which is not among the sources. *)
Variable minFeeFloor : Z.

(** Modelled from the spec: AddressDerivation (4.2) as the registry contract
    computes it from the key pair, its own address and the code template;
    the contract is not among the sources. *)
Variable deriveAddress : Z -> Z -> Address -> Cell -> Address.

(** The registry's own address. *)
Variable self : Address.

(** Modelled from the spec: the dispatch table of 4.3, the registry contract
    [sources-registry.fc] not being among the sources.  The sender is
    checked first, as the tests of a non-admin sender with an empty code
    cell and of a non-verifier sender without value ask; the minimum is
    checked before the maximum, in the order of the table. *)
Definition apply (state : RegistryState) (context : ExecutionContext)
    (message : Message) : Outcome :=
  match message with
  | DeploySource vk ck pointer =>
      if negb (Address_eqb (senderAddress context) (verifierSource state))
      then Rejected unauthorized
      else if attachedValue context <? minFee state
      then Rejected value_below_minimum
      else if maxFee state <? attachedValue context
      then Rejected value_above_maximum
      else
        Applied state
          (Some (CreateChild
                   (deriveAddress vk ck self (childCodeTemplate state))
                   (childCodeTemplate state)
                   (mkChild vk ck self None)
                   (SetContentPointer pointer)))
  | ChangeVerifierSource newAddress =>
      if negb (Address_eqb (senderAddress context) (admin state))
      then Rejected unauthorized
      else Applied (mkState (admin state) newAddress (minFee state) (maxFee state)
                            (childCodeTemplate state)) None
  | ChangeAdmin newAddress =>
      if negb (Address_eqb (senderAddress context) (admin state))
      then Rejected unauthorized
      else Applied (mkState newAddress (verifierSource state) (minFee state)
                            (maxFee state) (childCodeTemplate state)) None
  | SetChildCodeTemplate newCode =>
      if negb (Address_eqb (senderAddress context) (admin state))
      then Rejected unauthorized
      else if is_empty newCode then Rejected empty_code
      else Applied (mkState (admin state) (verifierSource state) (minFee state)
                            (maxFee state) newCode) None
  | ReplaceRegistryCode newCode =>
      if negb (Address_eqb (senderAddress context) (admin state))
      then Rejected unauthorized
      else if is_empty newCode then Rejected empty_code
      else Applied state (Some (ReplaceCode newCode))
  | SetFeeBounds newMin newMax =>
      if negb (Address_eqb (senderAddress context) (admin state))
      then Rejected unauthorized
      else if newMin <? minFeeFloor then Rejected minimum_below_floor
      else Applied (mkState (admin state) (verifierSource state) newMin newMax
                            (childCodeTemplate state)) None
  | UnknownOperation _ => Rejected unrecognized_operation
  end.

(** Modelled from the spec: the result code the sender observes (6), 0 for
    a message that was applied. *)
Definition exit_code (o : Outcome) : Z :=
  match o with
  | Applied _ _ => 0
  | Rejected code => code
  end.

(** Modelled from the spec: apply-or-reject (4.3), the state the registry
    holds once a message has been processed. *)
Definition state_after (state : RegistryState) (context : ExecutionContext)
    (message : Message) : RegistryState :=
  match apply state context message with
  | Applied newState _ => newState
  | Rejected _ => state
  end.

End StateMachine.

(** *** ChildRecordLogic (4.5) *)

(** Modelled from the spec: why a child refuses a message (4.5). *)
Inductive ChildRejection : Type :=
| NotTheRegistry
| AlreadyInitialized.

(** Modelled from the spec: the child record [source-item.fc], which is not
    among the sources, takes one pointer from its registry (4.5). *)
Definition child_receive (child : ChildRecordState) (sender : Address)
    (message : ChildMessage) : ChildRecordState + ChildRejection :=
  if negb (Address_eqb sender (registryAddress child)) then inr NotTheRegistry
  else
    match contentPointer child, message with
    | Some _, _ => inr AlreadyInitialized
    | None, SetContentPointer pointer =>
        inl (mkChild (verifierKey child) (contentKey child) (registryAddress child)
                     (Some pointer))
    end.

(** Modelled from the spec: the read-only query of the child contract (4.5,
    6). *)
Definition get_source_item_data (child : ChildRecordState)
  : Z * Z * Address * option Buffer :=
  (verifierKey child, contentKey child, registryAddress child, contentPointer child).

(** Modelled from the spec: the fifth entry of the query's result as the
    tests receive it, the cell that holds the bytes of the pointer, or
    [null]. *)
Definition content_cell (child : ChildRecordState) : option Cell :=
  option_map (fun pointer => mkCell (bytes_bits pointer) [])
             (snd (get_source_item_data child)).

(** [parseUrlFromGetSourceItemData] of the test-suite, applied to the query
    of a child: [Some None] is [null]. *)
Definition parseUrlFromGetSourceItemData (child : ChildRecordState)
  : option (option string) :=
  Deploy.parseUrlFromGetSourceItemData (content_cell child).

(** *** The values of the test-suite *)

(** The tests give their amounts as [toNano(x)] of a literal with at most
    three decimals, which is [x] in units of 10^-9: [toNano(0.065)] is
    65000000, [toNano(1)] is 1000000000.  The amounts are written out
    here. *)

(** The storage the tests start from: minimum 0.065, maximum 1. *)
Definition test_state : RegistryState :=
  mkState admin_address verifier_registry_address 65000000 1000000000 newCodeCell.

(** The address derivation in the spec's words, as a value of the registry's
    parameter. *)
Definition derive_spec (vk ck : Z) (self : Address) (code : Cell) : Address :=
  match deriveAddress_spec code vk ck self with
  | Ok (Some a) => a
  | _ => self
  end.

(** A floor the tests agree with: they have 0.05 below it, and they start
    from the minimum 0.065. *)
Definition tests_floor : Z := 65000000.

(** The deploy request of the tests, decoded. *)
Definition test_deploy : Message :=
  DeploySource (BN_of_bytes (toSha256Buffer spec_verifier))
               (contentKey_of spec_codeCellHash) (utf8 spec_jsonURL).

(** The test "Rejects changing min below lower bound": the admin sets the
    bounds (0.05, 20) and the registry answers 903. *)
Definition test_rejects_min_below_lower_bound (floor : Z) : Prop :=
  exit_code (apply floor derive_spec registry_address test_state
               (mkContext admin_address 10000000)
               (SetFeeBounds 50000000 20000000000))
  = 903.

(** The operations of the admin. *)
Definition admin_gated (message : Message) : Prop :=
  match message with
  | ChangeVerifierSource _ | ChangeAdmin _ | SetChildCodeTemplate _
  | ReplaceRegistryCode _ | SetFeeBounds _ _ => True
  | DeploySource _ _ _ | UnknownOperation _ => False
  end.

End Registry.

(* ================================================================== *)
(** ** Test vectors *)

Example sha256_abc :
  sha256 (utf8 "abc")
  = of_hex "ba7816bf8f01cfea414140de5dae2223b00361a396177a9cb410ff61f20015ad".
Proof. vm_compute. reflexivity. Qed.

Example sha256_empty :
  sha256 (utf8 "")
  = of_hex "e3b0c44298fc1c149afbf4c8996fb92427ae41e4649b934ca495991b7852b855".
Proof. vm_compute. reflexivity. Qed.

Example sha256_two_blocks :
  sha256 (utf8 "my verifier:E/XXoxbG124QU+iKxZtd5loHKjiEUTcdxcW+y7oT9Q4=")
  = of_hex "48c5d691546f8c642fd0c637b37a7435895541f893cc409101211557e44f65c8".
Proof. vm_compute. reflexivity. Qed.

Example base64_of_the_test_hash :
  Buffer_from_base64 "E/XXoxbG124QU+iKxZtd5loHKjiEUTcdxcW+y7oT9Q4="
  = of_hex "13f5d7a316c6d76e1053e88ac59b5de65a072a388451371dc5c5becbba13f50e".
Proof. vm_compute. reflexivity. Qed.

(** Forty-four characters U+012F, two bytes each in UTF-8, are read as
    forty-four [/]: thirty-three bytes of ones. *)
Example base64_reads_the_low_byte_of_a_unit :
  Buffer_from_base64 (string_of_list_byte (concat (repeat [xc4; xaf] 44)))
  = repeat xff 33.
Proof. vm_compute. reflexivity. Qed.

(* ================================================================== *)
(** ** Bytes and bits: lemmas *)

Lemma app_inj_length {A : Type} (a c b d : list A) :
  length a = length c -> a ++ b = c ++ d -> a = c /\ b = d.
Proof.
  revert c. induction a as [|x a IH]; intros [|y c] Hlen H; try discriminate.
  - split; [reflexivity | exact H].
  - cbn [length] in Hlen. injection Hlen as Hlen.
    cbn [app] in H. injection H as -> H.
    destruct (IH c Hlen H) as [-> ->]. split; reflexivity.
Qed.

Lemma Z_of_byte_range (b : byte) : 0 <= Z_of_byte b < 256.
Proof.
  unfold Z_of_byte. pose proof (Byte.to_N_bounded b) as H. lia.
Qed.

Lemma byte_of_Z_of_byte (b : byte) : byte_of_Z (Z_of_byte b) = b.
Proof.
  unfold byte_of_Z. pose proof (Z_of_byte_range b) as H.
  rewrite Z.mod_small by exact H.
  unfold Z_of_byte. rewrite N2Z.id, Byte.of_to_N. reflexivity.
Qed.

Lemma Z_of_byte_inj (a b : byte) : Z_of_byte a = Z_of_byte b -> a = b.
Proof.
  intros H. rewrite <- (byte_of_Z_of_byte a), <- (byte_of_Z_of_byte b), H.
  reflexivity.
Qed.

Lemma Z_of_byte_of_Z (z : Z) : Z_of_byte (byte_of_Z z) = z mod 256.
Proof.
  unfold byte_of_Z. pose proof (Z.mod_pos_bound z 256 ltac:(lia)) as H.
  destruct (Byte.of_N (Z.to_N (z mod 256))) as [b|] eqn:E.
  - apply Byte.to_of_N in E. unfold Z_of_byte. rewrite E. lia.
  - apply Byte.of_N_None_iff in E. lia.
Qed.

Lemma length_uint_bits (n : nat) (v : Z) : length (uint_bits n v) = n.
Proof. induction n as [|k IH]; simpl; [reflexivity | now rewrite IH]. Qed.

Lemma fold_bits_acc (l : list bool) (acc : Z) :
  fold_left (fun a (b : bool) => 2 * a + Z.b2z b) l acc
  = acc * 2 ^ Z.of_nat (length l) + bits_to_Z l.
Proof.
  unfold bits_to_Z. revert acc.
  induction l as [|b l IH]; intros acc.
  - simpl. lia.
  - cbn [fold_left length]. rewrite IH, (IH (2 * 0 + Z.b2z b)).
    rewrite Nat2Z.inj_succ, Z.pow_succ_r by lia. ring.
Qed.

Lemma bits_to_Z_cons (b : bool) (l : list bool) :
  bits_to_Z (b :: l) = Z.b2z b * 2 ^ Z.of_nat (length l) + bits_to_Z l.
Proof.
  unfold bits_to_Z at 1. cbn [fold_left]. rewrite fold_bits_acc. f_equal.
Qed.

Lemma bits_to_Z_app (l1 l2 : list bool) :
  bits_to_Z (l1 ++ l2) = bits_to_Z l1 * 2 ^ Z.of_nat (length l2) + bits_to_Z l2.
Proof.
  unfold bits_to_Z at 1. rewrite fold_left_app. fold (bits_to_Z l1).
  apply fold_bits_acc.
Qed.

Lemma bits_to_Z_range (l : list bool) : 0 <= bits_to_Z l < 2 ^ Z.of_nat (length l).
Proof.
  induction l as [|b l IH].
  - cbn. lia.
  - rewrite bits_to_Z_cons. cbn [length].
    rewrite Nat2Z.inj_succ, Z.pow_succ_r by lia.
    destruct b; cbn [Z.b2z]; lia.
Qed.

(** Bit strings of one length that spell the same number are equal. *)
Lemma bits_to_Z_inj (l1 l2 : list bool) :
  length l1 = length l2 -> bits_to_Z l1 = bits_to_Z l2 -> l1 = l2.
Proof.
  revert l2. induction l1 as [|a l1 IH]; intros [|b l2] Hlen Heq;
    try discriminate; [reflexivity|].
  cbn [length] in Hlen. injection Hlen as Hlen.
  rewrite !bits_to_Z_cons, <- Hlen in Heq.
  pose proof (bits_to_Z_range l1) as R1.
  pose proof (bits_to_Z_range l2) as R2. rewrite <- Hlen in R2.
  assert (a = b) as -> by (destruct a, b; cbn [Z.b2z] in Heq; try reflexivity; lia).
  f_equal. apply IH; [exact Hlen | lia].
Qed.

Lemma bits_to_Z_uint_bits (n : nat) (v : Z) :
  bits_to_Z (uint_bits n v) = v mod 2 ^ Z.of_nat n.
Proof.
  induction n as [|k IH].
  - cbn. now rewrite Z.mod_1_r.
  - cbn [uint_bits]. rewrite bits_to_Z_cons, length_uint_bits, IH.
    rewrite Z.testbit_spec' by lia.
    rewrite Nat2Z.inj_succ, Z.pow_succ_r by lia.
    rewrite (Z.mul_comm 2), Z.rem_mul_r by lia. ring.
Qed.

Lemma length_byte_bits (b : byte) : length (byte_bits b) = 8%nat.
Proof. apply length_uint_bits. Qed.

Lemma length_bytes_bits (buf : Buffer) : length (bytes_bits buf) = (8 * length buf)%nat.
Proof.
  induction buf as [|b buf IH]; [reflexivity|].
  unfold bytes_bits in *. cbn [flat_map]. rewrite length_app, IH, length_byte_bits.
  cbn [length]. lia.
Qed.

Lemma byte_of_bits_of_byte (b : byte) : byte_of_Z (bits_to_Z (byte_bits b)) = b.
Proof.
  unfold byte_bits. rewrite bits_to_Z_uint_bits.
  change (2 ^ Z.of_nat 8) with 256.
  rewrite Z.mod_small by apply Z_of_byte_range. apply byte_of_Z_of_byte.
Qed.

Lemma bits_bytes_app8 (l rest : list bool) :
  length l = 8%nat -> bits_bytes (l ++ rest) = byte_of_Z (bits_to_Z l) :: bits_bytes rest.
Proof.
  intros H.
  do 8 (destruct l as [|? l]; [discriminate|]).
  destruct l; [reflexivity | discriminate].
Qed.

Lemma bits_bytes_bytes_bits (buf : Buffer) : bits_bytes (bytes_bits buf) = buf.
Proof.
  induction buf as [|b buf IH]; [reflexivity|].
  unfold bytes_bits in *. cbn [flat_map].
  rewrite bits_bytes_app8 by apply length_byte_bits.
  now rewrite IH, byte_of_bits_of_byte.
Qed.

Lemma bytes_bits_inj (x y : Buffer) : bytes_bits x = bytes_bits y -> x = y.
Proof.
  intros H. rewrite <- (bits_bytes_bytes_bits x), H. apply bits_bytes_bytes_bits.
Qed.

Lemma bytes_bits_app (x y : Buffer) : bytes_bits (x ++ y) = bytes_bits x ++ bytes_bits y.
Proof. unfold bytes_bits. apply flat_map_app. Qed.

Lemma byte_bits_of_bits (l : list bool) :
  length l = 8%nat -> byte_bits (byte_of_Z (bits_to_Z l)) = l.
Proof.
  intros H. apply bits_to_Z_inj.
  - now rewrite length_byte_bits.
  - unfold byte_bits. rewrite bits_to_Z_uint_bits, Z_of_byte_of_Z.
    change (2 ^ Z.of_nat 8) with 256. rewrite Z.mod_mod by lia.
    apply Z.mod_small. pose proof (bits_to_Z_range l) as R. rewrite H in R.
    exact R.
Qed.

(** Grouping into bytes loses nothing of a bit string of whole bytes. *)
Lemma bytes_bits_bits_bytes (k : nat) (l : list bool) :
  length l = (8 * k)%nat -> bytes_bits (bits_bytes l) = l.
Proof.
  revert l. induction k as [|k IH]; intros l H.
  - destruct l; [reflexivity | discriminate].
  - rewrite <- (firstn_skipn 8 l).
    assert (length (firstn 8 l) = 8%nat) as H8 by (rewrite length_firstn; lia).
    rewrite bits_bytes_app8 by exact H8.
    unfold bytes_bits in *. cbn [flat_map].
    rewrite byte_bits_of_bits by exact H8.
    f_equal. apply IH. rewrite length_skipn. lia.
Qed.

Lemma length_bits_bytes (k : nat) (l : list bool) :
  length l = (8 * k)%nat -> length (bits_bytes l) = k.
Proof.
  intros H. pose proof (length_bytes_bits (bits_bytes l)) as E.
  rewrite (bytes_bits_bits_bytes k l H) in E. lia.
Qed.

Lemma BN_of_bytes_bits (buf : Buffer) : bits_to_Z (bytes_bits buf) = BN_of_bytes buf.
Proof.
  unfold BN_of_bytes.
  assert (forall acc, fold_left (fun a b => 256 * a + Z_of_byte b) buf acc
            = acc * 2 ^ Z.of_nat (length (bytes_bits buf)) + bits_to_Z (bytes_bits buf)) as G.
  { induction buf as [|b buf IH]; intros acc.
    - cbn. lia.
    - cbn [fold_left]. rewrite IH.
      unfold bytes_bits. cbn [flat_map]. fold (bytes_bits buf).
      rewrite bits_to_Z_app, length_app, length_byte_bits.
      unfold byte_bits at 1. rewrite bits_to_Z_uint_bits.
      change (2 ^ Z.of_nat 8) with 256.
      rewrite (Z.mod_small (Z_of_byte b)) by apply Z_of_byte_range.
      rewrite Nat2Z.inj_add, Z.pow_add_r by lia.
      change (2 ^ Z.of_nat 8) with 256. ring. }
  rewrite G. lia.
Qed.

Lemma BN_of_bytes_range (buf : Buffer) :
  0 <= BN_of_bytes buf < 2 ^ Z.of_nat (8 * length buf).
Proof.
  rewrite <- BN_of_bytes_bits, <- length_bytes_bits. apply bits_to_Z_range.
Qed.

(** A buffer stored as one unsigned integer of its own width is stored
    byte by byte. *)
Lemma uint_bits_BN_of_bytes (buf : Buffer) :
  uint_bits (8 * length buf) (BN_of_bytes buf) = bytes_bits buf.
Proof.
  apply bits_to_Z_inj.
  - now rewrite length_uint_bits, length_bytes_bits.
  - rewrite bits_to_Z_uint_bits, BN_of_bytes_bits.
    apply Z.mod_small, BN_of_bytes_range.
Qed.

Lemma length_sha256 (msg : Buffer) : length (sha256 msg) = 32%nat.
Proof.
  unfold sha256, SHA256.sha256, SHA256.digest_bytes, SHA256.word_bytes.
  reflexivity.
Qed.

(* ================================================================== *)
(** ** Builders: what each store writes *)

Lemma writeBits_ok (bs : list bool) (b : Builder) :
  (length (b_bits b) + length bs <= capacity)%nat ->
  writeBits bs b = Ok (mkBuilder (b_bits b ++ bs) (b_refs b)).
Proof.
  intros H. unfold writeBits. apply Nat.leb_le in H. now rewrite H.
Qed.

Lemma writeBits_overflow (bs : list bool) (b : Builder) :
  (capacity < length (b_bits b) + length bs)%nat ->
  writeBits bs b = Err InvalidIndex.
Proof.
  intros H. unfold writeBits. apply Nat.leb_gt in H. now rewrite H.
Qed.

(** Two runs of writes are one run. *)
Lemma writeBits_then (l1 l2 : list bool) (b : Builder) :
  writeBits l1 b |> writeBits l2 = writeBits (l1 ++ l2) b.
Proof.
  unfold writeBits at 1.
  destruct (length (b_bits b) + length l1 <=? capacity)%nat eqn:E1; cbn [bind].
  - apply Nat.leb_le in E1. unfold writeBits. cbn [b_bits b_refs].
    rewrite !length_app.
    rewrite Nat.add_assoc, app_assoc. reflexivity.
  - apply Nat.leb_gt in E1. symmetry. apply writeBits_overflow.
    rewrite length_app. lia.
Qed.

Lemma bind_writeBits_then (r : result Builder) (l1 l2 : list bool) :
  r |> writeBits l1 |> writeBits l2 = r |> writeBits (l1 ++ l2).
Proof. destruct r; cbn [bind]; [apply writeBits_then | reflexivity]. Qed.

Lemma toString2_length_fits (v : Z) (n : nat) :
  0 <= v -> n <> O -> ((n <? toString2_length v)%nat = false <-> v < 2 ^ Z.of_nat n).
Proof.
  intros Hv Hn. unfold toString2_length.
  destruct (Z.ltb_spec v 0) as [|_]; [lia|].
  destruct (Z.eqb_spec v 0) as [->|Hnz].
  - rewrite Nat.ltb_ge. split; intros _; [|lia].
    apply Z.pow_pos_nonneg; lia.
  - rewrite Nat.ltb_ge, Z.abs_eq by lia.
    rewrite (Z.log2_lt_pow2 v (Z.of_nat n)) by lia.
    pose proof (Z.log2_nonneg v). lia.
Qed.

Lemma storeUint_fits (v : Z) (n : nat) (b : Builder) :
  0 <= v < 2 ^ Z.of_nat n -> n <> O -> storeUint v n b = writeBits (uint_bits n v) b.
Proof.
  intros [Hv Hlt] Hn. unfold storeUint.
  apply (toString2_length_fits v n Hv Hn) in Hlt. rewrite Hlt.
  destruct n as [|k]; [contradiction|]. cbn [Nat.eqb orb].
  unfold toString2_bits. destruct (Z.ltb_spec v 0); [lia | reflexivity].
Qed.

Lemma storeUint_too_small (v : Z) (n : nat) (b : Builder) :
  2 ^ Z.of_nat n <= v -> storeUint v n b = Err BitLengthTooSmall.
Proof.
  intros H. unfold storeUint.
  assert (0 < v) as Hpos by (pose proof (Z.pow_pos_nonneg 2 (Z.of_nat n)); lia).
  destruct n as [|k].
  - cbn [Nat.eqb orb]. destruct (Z.eqb_spec v 0); [lia | reflexivity].
  - cbn [Nat.eqb orb].
    destruct (S k <? toString2_length v)%nat eqn:E.
    + destruct (Z.eqb_spec v 0); [lia | reflexivity].
    + apply toString2_length_fits in E; lia.
Qed.

Lemma storeInt8 (v : Z) (b : Builder) :
  -128 <= v < 128 -> storeInt v 8 b = writeBits (int8_bits v) b.
Proof.
  intros H. unfold storeInt, storeBit, int8_bits. cbn [Nat.eqb Nat.sub].
  change (2 ^ Z.of_nat 7) with 128.
  destruct (Z.ltb_spec v 0).
  - transitivity (writeBits [true] b |> writeBits (uint_bits 7 (128 + v))).
    + destruct (writeBits [true] b); cbn [bind]; [|reflexivity].
      apply storeUint_fits; [change (2 ^ Z.of_nat 7) with 128; lia | discriminate].
    + exact (writeBits_then [true] (uint_bits 7 (128 + v)) b).
  - transitivity (writeBits [false] b |> writeBits (uint_bits 7 v)).
    + destruct (writeBits [false] b); cbn [bind]; [|reflexivity].
      apply storeUint_fits; [change (2 ^ Z.of_nat 7) with 128; lia | discriminate].
    + exact (writeBits_then [false] (uint_bits 7 v) b).
Qed.

Lemma int8_bits_inj (v w : Z) :
  -128 <= v < 128 -> -128 <= w < 128 -> int8_bits v = int8_bits w -> v = w.
Proof.
  intros Hv Hw H. unfold int8_bits in H.
  assert (Hs := f_equal (hd false) H). assert (Hb := f_equal (@tl bool) H).
  cbn [hd tl] in Hs, Hb. clear H.
  apply (f_equal bits_to_Z) in Hb. rewrite !bits_to_Z_uint_bits in Hb.
  change (2 ^ Z.of_nat 7) with 128 in Hb.
  destruct (Z.ltb_spec v 0), (Z.ltb_spec w 0); try discriminate;
    rewrite !Z.mod_small in Hb by lia; lia.
Qed.

Lemma storeAddress_eq (a : Address) (b : Builder) :
  -128 <= workChain a < 128 -> storeAddress a b = writeBits (address_bits a) b.
Proof.
  intros H. unfold storeAddress, address_bits, storeBuffer.
  change (storeUint 2 2 b) with (writeBits [true; false] b).
  assert (forall r, r |> storeUint 0 1 = r |> writeBits [false]) as E1
    by (intros [x|e]; reflexivity).
  assert (forall r, r |> storeInt (workChain a) 8 = r |> writeBits (int8_bits (workChain a)))
    as E2 by (intros [x|e]; cbn [bind]; [now apply storeInt8 | reflexivity]).
  rewrite E1, E2, !bind_writeBits_then, writeBits_then.
  reflexivity.
Qed.

Lemma length_address_bits (a : Address) :
  length (hash a) = 32%nat -> length (address_bits a) = 267%nat.
Proof.
  intros H. unfold address_bits, int8_bits.
  rewrite !length_app. cbn [length]. rewrite length_uint_bits, length_bytes_bits, H.
  reflexivity.
Qed.

Lemma address_bits_inj (a b : Address) :
  valid_address a -> valid_address b -> address_bits a = address_bits b -> a = b.
Proof.
  intros [Ha _] [Hb _] H. unfold address_bits in H.
  apply app_inv_head in H.
  assert (int8_bits (workChain a) = int8_bits (workChain b)
          /\ bytes_bits (hash a) = bytes_bits (hash b)) as [Hw Hh].
  { apply app_inj_length; [|exact H].
    unfold int8_bits. cbn [length]. now rewrite !length_uint_bits. }
  apply int8_bits_inj in Hw; [|assumption..].
  apply bytes_bits_inj in Hh.
  destruct a, b. cbn in *. now subst.
Qed.

(* ================================================================== *)
(** ** [keyToAddress]: the address it returns *)

Lemma length_cell_hash (c : Cell) : length (cell_hash c) = 32%nat.
Proof. destruct c. apply length_sha256. Qed.

Lemma readAddress_std (h : Buffer) :
  length h = 32%nat ->
  readAddress ([true; false; false] ++ uint_bits 8 0 ++ bytes_bits h) = Ok (Some (mkAddress 0 h)).
Proof.
  intros H. unfold readAddress. cbn -[bytes_bits bits_bytes].
  unfold readBuffer.
  assert (length (bytes_bits h) = (8 * 32)%nat) as L by (rewrite length_bytes_bits; lia).
  rewrite L, Nat.leb_refl. cbn [bind fst].
  rewrite <- L, firstn_all, bits_bytes_bytes_bits. reflexivity.
Qed.

Lemma stateInit_built (code data : Cell) :
  endCell (beginCell |> storeUint 0 2 |> storeDict (Some code) |> storeDict (Some data)
                     |> storeUint 0 1)
  = Ok (stateInit code data).
Proof. reflexivity. Qed.

Lemma keyToAddress_eq (code : Cell) (verifierId codeCell : string) (registryAddress : Address) :
  valid_address registryAddress ->
  keyToAddress code verifierId codeCell registryAddress
  = Ok (Some (mkAddress 0 (cell_hash (stateInit code (dataCell verifierId codeCell registryAddress))))).
Proof.
  intros [Hwc Hh]. unfold keyToAddress.
  assert (endCell (beginCell |> storeBuffer (prepareKey verifierId codeCell)
                             |> storeAddress registryAddress)
          = Ok (dataCell verifierId codeCell registryAddress)) as ->.
  { unfold beginCell, storeBuffer. cbn [bind].
    assert (forall r, r |> storeAddress registryAddress
                      = r |> writeBits (address_bits registryAddress)) as ->
      by (intros [x|e]; cbn [bind]; [now apply storeAddress_eq | reflexivity]).
    rewrite writeBits_then, writeBits_ok; [reflexivity|].
    cbn [b_bits length]. rewrite length_app, length_bytes_bits, length_address_bits by exact Hh.
    unfold prepareKey. rewrite length_sha256. unfold capacity. lia. }
  cbn [bind]. rewrite stateInit_built. cbn [bind].
  generalize (stateInit code (dataCell verifierId codeCell registryAddress)). intros si.
  pose proof (length_cell_hash si) as L.
  assert (beginCell |> storeUint 4 3 |> storeInt 0 8
          = Ok (mkBuilder ([true; false; false] ++ uint_bits 8 0) [])) as -> by reflexivity.
  cbn [bind].
  rewrite storeUint_fits;
    [| pose proof (BN_of_bytes_range (cell_hash si)) as R; rewrite L in R; exact R
     | discriminate].
  change 256%nat with (8 * 32)%nat. rewrite <- L at 1.
  rewrite uint_bits_BN_of_bytes, writeBits_ok.
  - cbn [endCell bind b_bits b_refs beginParse cell_bits].
    rewrite <- app_assoc. now apply readAddress_std.
  - cbn [b_bits]. rewrite length_app, length_bytes_bits, L. cbn. unfold capacity. lia.
Qed.

(* ================================================================== *)
(** ** The representation hash tells cells apart, collisions aside *)

Lemma cell_hash_repr (c : Cell) : cell_hash c = sha256 (cell_repr c).
Proof. destruct c. reflexivity. Qed.

Lemma collision_free_incl (xs ys : list Buffer) :
  incl xs ys -> collision_free ys -> collision_free xs.
Proof. intros I F x y Hx Hy. apply F; now apply I. Qed.

Lemma pad_marker_inj (l1 l2 : list bool) (a b : nat) :
  l1 ++ true :: repeat false a = l2 ++ true :: repeat false b -> l1 = l2.
Proof.
  intros H. apply (f_equal (@rev bool)) in H.
  rewrite !rev_app_distr in H. cbn [rev] in H. rewrite !rev_repeat in H.
  rewrite <- !app_assoc in H. cbn [app] in H.
  revert b H. induction a as [|a IH]; intros [|b] H; cbn [repeat app] in H.
  - injection H as H. apply (f_equal (@rev bool)) in H.
    now rewrite !rev_involutive in H.
  - discriminate.
  - discriminate.
  - injection H as H. now apply IH in H.
Qed.

Lemma length_topUpped (bits : list bool) :
  length (topUpped bits) = (8 * ((length bits + 7) / 8))%nat.
Proof.
  unfold topUpped.
  pose proof (Nat.div_mod_eq (length bits) 8) as E.
  pose proof (Nat.mod_upper_bound (length bits) 8 ltac:(lia)) as B.
  destruct ((8 - length bits mod 8) mod 8)%nat as [|k] eqn:K.
  - assert (length bits mod 8 = 0)%nat as Z.
    { destruct (length bits mod 8)%nat as [|m] eqn:M; [reflexivity|].
      rewrite Nat.mod_small in K by lia. lia. }
    assert ((length bits + 7) / 8 = length bits / 8)%nat as ->; [|lia].
    symmetry. apply (Nat.div_unique _ 8 _ 7); lia.
  - rewrite length_app. cbn [length]. rewrite repeat_length.
    assert (length bits mod 8 <> 0)%nat as NZ.
    { intros Z. rewrite Z in K. cbn in K. discriminate. }
    rewrite Nat.mod_small in K by lia.
    assert ((length bits + 7) / 8 = S (length bits / 8))%nat as ->; [|lia].
    symmetry. apply (Nat.div_unique _ 8 _ (length bits mod 8 - 1)); lia.
Qed.

Lemma topUpped_inj (b1 b2 : list bool) :
  (length b1 mod 8 = 0 <-> length b2 mod 8 = 0)%nat ->
  topUpped b1 = topUpped b2 -> b1 = b2.
Proof.
  intros P H. unfold topUpped in H.
  pose proof (Nat.mod_upper_bound (length b1) 8 ltac:(lia)) as B1.
  pose proof (Nat.mod_upper_bound (length b2) 8 ltac:(lia)) as B2.
  destruct ((8 - length b1 mod 8) mod 8)%nat as [|k1] eqn:K1;
    destruct ((8 - length b2 mod 8) mod 8)%nat as [|k2] eqn:K2.
  - exact H.
  - exfalso.
    assert (length b1 mod 8 = 0)%nat as Z.
    { destruct (length b1 mod 8)%nat as [|m] eqn:M; [reflexivity|].
      rewrite Nat.mod_small in K1 by lia. lia. }
    apply P in Z. rewrite Z in K2. cbn in K2. discriminate.
  - exfalso.
    assert (length b2 mod 8 = 0)%nat as Z.
    { destruct (length b2 mod 8)%nat as [|m] eqn:M; [reflexivity|].
      rewrite Nat.mod_small in K2 by lia. lia. }
    apply P in Z. rewrite Z in K1. cbn in K1. discriminate.
  - now apply pad_marker_inj in H.
Qed.

Lemma length_depths (refs : list Cell) :
  length (flat_map (fun r => depth_bytes (cell_depth r)) refs) = (2 * length refs)%nat.
Proof.
  induction refs as [|r refs IH]; [reflexivity|].
  cbn [flat_map length]. rewrite length_app, IH. cbn [depth_bytes length]. lia.
Qed.

Lemma byte_of_nat_inj (m n : nat) :
  (m <= 255)%nat -> (n <= 255)%nat ->
  byte_of_Z (Z.of_nat m) = byte_of_Z (Z.of_nat n) -> m = n.
Proof.
  intros Hm Hn H. apply (f_equal Z_of_byte) in H.
  rewrite !Z_of_byte_of_Z, !Z.mod_small in H by lia. lia.
Qed.

(** The bytes a cell is hashed from give back its bits, the number of its
    references and their hashes. *)
Lemma cell_repr_inj (bits1 bits2 : list bool) (refs1 refs2 : list Cell) :
  (length bits1 <= 1023)%nat -> (length bits2 <= 1023)%nat ->
  (length refs1 <= 4)%nat -> (length refs2 <= 4)%nat ->
  cell_repr (mkCell bits1 refs1) = cell_repr (mkCell bits2 refs2) ->
  bits1 = bits2 /\ length refs1 = length refs2
  /\ flat_map cell_hash refs1 = flat_map cell_hash refs2.
Proof.
  intros B1 B2 R1 R2 H. unfold cell_repr, descriptors in H.
  cbn [cell_bits cell_refs] in H.
  apply app_inj_length in H as [Hd H]; [|reflexivity].
  assert (Hd1 := f_equal (fun l => nth 0 l x00) Hd).
  assert (Hd2 := f_equal (fun l => nth 1 l x00) Hd).
  cbn [nth] in Hd1, Hd2. clear Hd.
  apply byte_of_nat_inj in Hd1; [|lia..].
  pose proof (Nat.div_mod_eq (length bits1) 8) as E1.
  pose proof (Nat.mod_upper_bound (length bits1) 8 ltac:(lia)) as U1.
  pose proof (Nat.div_mod_eq (length bits1 + 7) 8) as E1'.
  pose proof (Nat.mod_upper_bound (length bits1 + 7) 8 ltac:(lia)) as U1'.
  pose proof (Nat.div_mod_eq (length bits2) 8) as E2.
  pose proof (Nat.mod_upper_bound (length bits2) 8 ltac:(lia)) as U2.
  pose proof (Nat.div_mod_eq (length bits2 + 7) 8) as E2'.
  pose proof (Nat.mod_upper_bound (length bits2 + 7) 8 ltac:(lia)) as U2'.
  apply byte_of_nat_inj in Hd2; [|lia..].
  assert ((length bits1 + 7) / 8 = (length bits2 + 7) / 8)%nat as Hq by lia.
  assert (length bits1 mod 8 = 0 <-> length bits2 mod 8 = 0)%nat as Hr by lia.
  apply app_inj_length in H as [Hb H].
  2:{ rewrite (length_bits_bytes _ _ (length_topUpped bits1)).
      rewrite (length_bits_bytes _ _ (length_topUpped bits2)). exact Hq. }
  apply (f_equal bytes_bits) in Hb.
  rewrite (bytes_bits_bits_bytes _ _ (length_topUpped bits1)) in Hb.
  rewrite (bytes_bits_bits_bytes _ _ (length_topUpped bits2)) in Hb.
  apply topUpped_inj in Hb; [|exact Hr].
  apply app_inj_length in H as [_ H]; [|rewrite !length_depths; lia].
  auto.
Qed.

(** References with equal hashes, one after the other, are equal as soon as
    equal hashes make two of them equal. *)
Lemma refs_of_equal_hashes (refs1 refs2 : list Cell) :
  Forall (fun r1 => forall r2, In r2 refs2 -> cell_hash r1 = cell_hash r2 -> r1 = r2) refs1 ->
  length refs1 = length refs2 ->
  flat_map cell_hash refs1 = flat_map cell_hash refs2 ->
  refs1 = refs2.
Proof.
  intros F. revert refs2 F.
  induction refs1 as [|r1 refs1 IH]; intros [|r2 refs2] F L H; try discriminate.
  - reflexivity.
  - cbn [flat_map] in H.
    apply app_inj_length in H as [Hh H]; [|now rewrite !length_cell_hash].
    inversion F as [|? ? F1 F2]; subst.
    rewrite (F1 r2 (or_introl eq_refl) Hh). f_equal.
    apply IH.
    + eapply Forall_impl; [|exact F2]. intros a Ha r Hr. apply Ha. now right.
    + cbn [length] in L. lia.
    + exact H.
Qed.

Lemma in_cell_reprs_ref (r c : Cell) (x : Buffer) :
  In r (cell_refs c) -> In x (cell_reprs r) -> In x (cell_reprs c).
Proof.
  destruct c as [bits refs]. cbn [cell_refs cell_reprs]. intros Hr Hx.
  right. apply in_flat_map. eauto.
Qed.

(** Two well-formed cells with one hash are one cell, unless two of the byte
    strings hashed on the way collide. *)
Lemma cell_hash_inj (c1 : Cell) :
  forall c2, wf_cell c1 -> wf_cell c2 ->
    collision_free (cell_reprs c1 ++ cell_reprs c2) ->
    cell_hash c1 = cell_hash c2 -> c1 = c2.
Proof.
  induction c1 as [bits1 refs1 IH] using Cell_induction.
  intros [bits2 refs2] W1 W2 F H.
  inversion W1 as [? ? B1 R1 F1]; subst. inversion W2 as [? ? B2 R2 F2]; subst.
  rewrite !cell_hash_repr in H.
  apply F in H.
  2:{ apply in_or_app. left. left. reflexivity. }
  2:{ apply in_or_app. right. left. reflexivity. }
  apply cell_repr_inj in H as (-> & L & H); try assumption.
  f_equal. apply refs_of_equal_hashes; try assumption.
  rewrite Forall_forall in IH, F1, F2 |- *.
  intros r1 In1 r2 In2 Hh.
  apply IH; auto.
  eapply collision_free_incl; [|exact F].
  intros x Hx. apply in_app_or in Hx. apply in_or_app.
  destruct Hx as [Hx|Hx]; [left|right].
  - apply (in_cell_reprs_ref r1 (mkCell bits2 refs1)); assumption.
  - apply (in_cell_reprs_ref r2 (mkCell bits2 refs2)); assumption.
Qed.

(* ================================================================== *)
(** ** Strings and the key's separator *)

Lemma utf8_app (a b : string) : utf8 (a ++ b)%string = utf8 a ++ utf8 b.
Proof.
  unfold utf8, list_byte_of_string.
  induction a as [|x a IH]; [reflexivity|].
  cbn [String.append list_ascii_of_string map app]. now rewrite IH.
Qed.

Lemma utf8_inj (a b : string) : utf8 a = utf8 b -> a = b.
Proof.
  intros H. rewrite <- (string_of_list_byte_of_string a),
    <- (string_of_list_byte_of_string b). unfold utf8 in H. now rewrite H.
Qed.

Lemma utf8_key (verifierId codeCell : string) :
  utf8 (verifierId ++ ":" ++ codeCell)%string = key_preimage verifierId codeCell.
Proof. rewrite utf8_app. reflexivity. Qed.

Lemma first_separator {A : Type} (x : A) (m1 m2 l1 l2 : list A) :
  ~ In x m1 -> ~ In x m2 -> m1 ++ x :: l1 = m2 ++ x :: l2 -> m1 = m2 /\ l1 = l2.
Proof.
  revert m2. induction m1 as [|a m1 IH]; intros [|b m2] N1 N2 H; cbn [app] in H.
  - injection H as H. auto.
  - injection H as -> _. exfalso. apply N2. now left.
  - injection H as -> _. exfalso. apply N1. now left.
  - injection H as -> H.
    destruct (IH m2) as [-> ->]; auto.
    + intros I. apply N1. now right.
    + intros I. apply N2. now right.
Qed.

Lemma last_separator {A : Type} (x : A) (l1 l2 m1 m2 : list A) :
  ~ In x m1 -> ~ In x m2 -> l1 ++ x :: m1 = l2 ++ x :: m2 -> l1 = l2 /\ m1 = m2.
Proof.
  intros N1 N2 H. apply (f_equal (@rev A)) in H.
  rewrite !rev_app_distr in H. cbn [rev] in H. rewrite <- !app_assoc in H.
  cbn [app] in H.
  apply first_separator in H as [Hm Hl]; try (rewrite <- in_rev; assumption).
  apply (f_equal (@rev A)) in Hm, Hl. rewrite !rev_involutive in Hm, Hl. auto.
Qed.

Lemma key_preimage_inj (v1 c1 v2 c2 : string) :
  no_separator c1 -> no_separator c2 ->
  key_preimage v1 c1 = key_preimage v2 c2 -> v1 = v2 /\ c1 = c2.
Proof.
  intros N1 N2 H. apply last_separator in H as [Hv Hc]; [|assumption..].
  split; now apply utf8_inj.
Qed.

Lemma key_preimage_inj_left (v1 v2 c : string) :
  key_preimage v1 c = key_preimage v2 c -> v1 = v2.
Proof. intros H. apply app_inv_tail in H. now apply utf8_inj. Qed.

Lemma key_preimage_inj_right (v c1 c2 : string) :
  key_preimage v c1 = key_preimage v c2 -> c1 = c2.
Proof.
  intros H. apply app_inv_head in H. injection H as H. now apply utf8_inj.
Qed.

Lemma prepareKey_eq (verifierId codeCell : string) :
  prepareKey verifierId codeCell = sha256 (key_preimage verifierId codeCell).
Proof. unfold prepareKey. now rewrite utf8_key. Qed.

(* ================================================================== *)
(** ** C1: [keyToAddress] is a function of its inputs and tells them apart *)

Lemma Buffer_eqb_eq (x y : Buffer) : Buffer_eqb x y = true <-> x = y.
Proof.
  revert y. induction x as [|a x IH]; intros [|b y]; cbn [Buffer_eqb];
    try (split; [discriminate | discriminate]); [tauto|].
  rewrite andb_true_iff, IH. split.
  - intros [E ->]. apply Byte.byte_dec_bl in E. now subst.
  - intros E. injection E as -> ->. split; [now apply Byte.byte_dec_lb | reflexivity].
Qed.

Lemma collision_freeb_sound (xs : list Buffer) :
  collision_freeb xs = true -> collision_free xs.
Proof.
  unfold collision_freeb, collision_free. cbv zeta. rewrite forallb_forall.
  intros H x y Hx Hy E.
  specialize (H (x, sha256 x) (in_map (fun x => (x, sha256 x)) xs x Hx)).
  rewrite forallb_forall in H.
  specialize (H (y, sha256 y) (in_map (fun x => (x, sha256 x)) xs y Hy)).
  cbn [fst snd] in H. apply orb_true_iff in H as [H|H].
  - apply negb_true_iff in H.
    assert (Buffer_eqb (sha256 x) (sha256 y) = true) as T by now apply Buffer_eqb_eq.
    congruence.
  - now apply Buffer_eqb_eq.
Qed.

Lemma wf_stateInit (code : Cell) (v c : string) (r : Address) :
  wf_cell code -> length (hash r) = 32%nat -> wf_cell (stateInit code (dataCell v c r)).
Proof.
  intros W H. unfold stateInit, dataCell.
  apply wf_mkCell; [cbn [length]; lia | cbn [length]; lia |].
  apply Forall_cons; [exact W|]. apply Forall_cons; [|apply Forall_nil].
  apply wf_mkCell; [| cbn [length]; lia | apply Forall_nil].
  rewrite length_app, length_bytes_bits, length_address_bits by exact H.
  unfold prepareKey. rewrite length_sha256. lia.
Qed.

(** With no collision among the digested byte strings, one address means
    one key preimage, one registry address and one code template. *)
Lemma keyToAddress_inj (code1 code2 : Cell) (v1 v2 c1 c2 : string) (r1 r2 : Address) :
  wf_cell code1 -> wf_cell code2 -> valid_address r1 -> valid_address r2 ->
  collision_free (keyToAddress_preimages code1 v1 c1 r1
                  ++ keyToAddress_preimages code2 v2 c2 r2) ->
  keyToAddress code1 v1 c1 r1 = keyToAddress code2 v2 c2 r2 ->
  key_preimage v1 c1 = key_preimage v2 c2 /\ r1 = r2 /\ code1 = code2.
Proof.
  intros W1 W2 V1 V2 F H.
  rewrite !keyToAddress_eq in H by assumption.
  assert (cell_hash (stateInit code1 (dataCell v1 c1 r1))
          = cell_hash (stateInit code2 (dataCell v2 c2 r2))) as H' by congruence.
  clear H. apply cell_hash_inj in H'.
  - unfold stateInit, dataCell in H'.
    assert (code1 = code2) as Hc by congruence.
    assert (bytes_bits (prepareKey v1 c1) ++ address_bits r1
            = bytes_bits (prepareKey v2 c2) ++ address_bits r2) as Hd by congruence.
    clear H'. apply app_inj_length in Hd as [Hk Ha].
    2:{ rewrite !length_bytes_bits. unfold prepareKey. now rewrite !length_sha256. }
    apply bytes_bits_inj in Hk. rewrite !prepareKey_eq in Hk.
    apply address_bits_inj in Ha; [|assumption..].
    repeat split; try assumption.
    apply F; [| |exact Hk].
    + apply in_or_app. left. now left.
    + apply in_or_app. right. now left.
  - apply wf_stateInit; [assumption | apply V1].
  - apply wf_stateInit; [assumption | apply V2].
  - eapply collision_free_incl; [|exact F].
    intros x Hx. apply in_app_or in Hx. apply in_or_app.
    destruct Hx; [left | right]; now right.
Qed.

(** C1. [keyToAddress] returns an address for every identity, content hash,
    valid registry address and well-formed code template; equal inputs give
    equal addresses; and, no two of the digested byte strings colliding under
    SHA-256, changing any one of the four inputs changes the address. *)
Theorem keyToAddress_deterministic_and_input_sensitive
    (code1 code2 : Cell) (v1 v2 c1 c2 : string) (r1 r2 : Address) :
  wf_cell code1 -> wf_cell code2 -> valid_address r1 -> valid_address r2 ->
  collision_free (keyToAddress_preimages code1 v1 c1 r1
                  ++ keyToAddress_preimages code2 v2 c2 r2) ->
  exists a1 a2,
    keyToAddress code1 v1 c1 r1 = Ok (Some a1)
    /\ keyToAddress code2 v2 c2 r2 = Ok (Some a2)
    /\ ((v1, c1, r1, code1) = (v2, c2, r2, code2) -> a1 = a2)
    /\ (one_input_changed (v1, c1, r1, code1) (v2, c2, r2, code2) -> a1 <> a2).
Proof.
  intros W1 W2 V1 V2 F.
  pose proof (keyToAddress_inj _ _ _ _ _ _ _ _ W1 W2 V1 V2 F) as I.
  rewrite !keyToAddress_eq in I by assumption.
  eexists. eexists.
  split; [now apply keyToAddress_eq|].
  split; [now apply keyToAddress_eq|].
  split.
  - intros E. injection E as -> -> -> ->. reflexivity.
  - intros Ch E.
    destruct (I (f_equal (fun a => Ok (Some a)) E)) as (Hk & Hr & Hc).
    destruct Ch as [(N & -> & _)|[(-> & N & _)|[(_ & _ & N & _)|(_ & _ & _ & N)]]].
    + apply N. now apply key_preimage_inj_left in Hk.
    + apply N. now apply key_preimage_inj_right in Hk.
    + now apply N.
    + now apply N.
Qed.

Lemma keyToAddress_deterministic_and_input_sensitive_witness :
  exists a1 a2,
    keyToAddress newCodeCell spec_verifier spec_codeCellHash registry_address = Ok (Some a1)
    /\ keyToAddress newCodeCell (spec_verifier ++ "1") spec_codeCellHash registry_address
       = Ok (Some a2)
    /\ a1 <> a2.
Proof.
  destruct (keyToAddress_deterministic_and_input_sensitive
              newCodeCell newCodeCell spec_verifier (spec_verifier ++ "1")
              spec_codeCellHash spec_codeCellHash registry_address registry_address)
    as (a1 & a2 & E1 & E2 & _ & N).
  - apply wf_mkCell; [cbn; lia | cbn; lia | apply Forall_nil].
  - apply wf_mkCell; [cbn; lia | cbn; lia | apply Forall_nil].
  - split; [cbn; lia | reflexivity].
  - split; [cbn; lia | reflexivity].
  - apply collision_freeb_sound. vm_compute. reflexivity.
  - exists a1, a2. split; [exact E1|]. split; [exact E2|].
    apply N. left. repeat split. discriminate.
Defined.

(** The claim fails for a registry address whose workchain is not one
    signed byte: the workchains -130 and -127 with one hash are two registry
    addresses for which [keyToAddress] builds one storage cell, so it
    returns one address for both, and no two digested byte strings
    collide. *)
Lemma keyToAddress_registry_workchains_share_an_address :
  mkAddress (-130) (hash registry_address) <> mkAddress (-127) (hash registry_address)
  /\ endCell (beginCell
              |> storeBuffer (prepareKey spec_verifier spec_codeCellHash)
              |> storeAddress (mkAddress (-130) (hash registry_address)))
     = endCell (beginCell
                |> storeBuffer (prepareKey spec_verifier spec_codeCellHash)
                |> storeAddress (mkAddress (-127) (hash registry_address)))
  /\ exists a,
       keyToAddress newCodeCell spec_verifier spec_codeCellHash
         (mkAddress (-130) (hash registry_address)) = Ok (Some a)
       /\ keyToAddress newCodeCell spec_verifier spec_codeCellHash
            (mkAddress (-127) (hash registry_address)) = Ok (Some a).
Proof.
  split; [|split].
  - intros E. apply (f_equal workChain) in E. cbn [workChain] in E. discriminate.
  - vm_compute. reflexivity.
  - eexists. split; vm_compute; reflexivity.
Qed.

(* ================================================================== *)
(** ** C2: the storage [keyToAddress] hashes *)

(** C2, as the code has it. For a valid registry address, [keyToAddress]
    builds the child's storage as the pair of one 256-bit digest,
    [prepareKey(verifierId, codeCell)], and the registry address, with no
    second key field and no content marker; it pairs the storage with the
    code template in a state-init cell (two zero bits, the code and the data
    as present references, one zero bit); and it returns the standard
    address of workchain 0 whose hash is the representation hash of that
    cell. *)
Theorem keyToAddress_hashes_key_and_registry
    (code : Cell) (verifierId codeCell : string) (registryAddress : Address) :
  valid_address registryAddress ->
  let storage :=
    mkCell (bytes_bits (sha256 (utf8 (verifierId ++ ":" ++ codeCell)%string))
            ++ address_bits registryAddress) [] in
  let image := mkCell [false; false; true; true; false] [code; storage] in
  endCell (beginCell |> storeBuffer (prepareKey verifierId codeCell)
                     |> storeAddress registryAddress) = Ok storage
  /\ length (cell_bits storage) = (256 + 267)%nat
  /\ keyToAddress code verifierId codeCell registryAddress
     = Ok (Some (mkAddress 0 (cell_hash image))).
Proof.
  intros V storage image. split; [|split].
  - destruct V as [Hwc Hh]. unfold beginCell, storeBuffer. cbn [bind].
    assert (forall r, r |> storeAddress registryAddress
                      = r |> writeBits (address_bits registryAddress)) as ->
      by (intros [x|e]; cbn [bind]; [now apply storeAddress_eq | reflexivity]).
    rewrite writeBits_then, writeBits_ok; [reflexivity|].
    cbn [b_bits length].
    rewrite length_app, length_bytes_bits, length_address_bits by exact Hh.
    unfold prepareKey. rewrite length_sha256. unfold capacity. lia.
  - subst storage. cbn [cell_bits].
    rewrite length_app, length_bytes_bits, length_sha256, length_address_bits by apply V.
    reflexivity.
  - now apply keyToAddress_eq.
Qed.

Lemma keyToAddress_hashes_key_and_registry_witness :
  keyToAddress newCodeCell spec_verifier spec_codeCellHash registry_address
  = Ok (Some (mkAddress 0
         (cell_hash (mkCell [false; false; true; true; false]
                       [newCodeCell;
                        mkCell (bytes_bits (sha256 (utf8 "my verifier:E/XXoxbG124QU+iKxZtd5loHKjiEUTcdxcW+y7oT9Q4="))
                                ++ address_bits registry_address) []])))).
Proof.
  apply (keyToAddress_hashes_key_and_registry newCodeCell spec_verifier spec_codeCellHash
           registry_address).
  split; [cbn; lia | reflexivity].
Defined.

(** The storage in the spec's words has the two key fields, the address and
    the marker: 780 bits. *)
Lemma initialStorage_spec_bits (verifierKey contentKey : Z) (registryAddress : Address) :
  0 <= verifierKey < 2 ^ 256 -> 0 <= contentKey < 2 ^ 256 ->
  valid_address registryAddress ->
  initialStorage_spec verifierKey contentKey registryAddress
  = Ok (mkCell (uint_bits 256 verifierKey ++ uint_bits 256 contentKey
                ++ address_bits registryAddress ++ [false]) []).
Proof.
  intros Hv Hc [Hwc Hh]. unfold initialStorage_spec, beginCell, storeDict, storeBit.
  cbn [bind].
  rewrite storeUint_fits by (try discriminate; exact Hv).
  assert (forall r, r |> storeUint contentKey 256 = r |> writeBits (uint_bits 256 contentKey))
    as -> by (intros [x|e]; cbn [bind];
              [apply storeUint_fits; [exact Hc | discriminate] | reflexivity]).
  assert (forall r, r |> storeAddress registryAddress
                    = r |> writeBits (address_bits registryAddress)) as ->
    by (intros [x|e]; cbn [bind]; [now apply storeAddress_eq | reflexivity]).
  rewrite writeBits_then, !bind_writeBits_then, writeBits_then.
  rewrite writeBits_ok.
  - cbn [endCell bind b_bits b_refs app]. now rewrite <- !app_assoc.
  - cbn [b_bits length]. rewrite !length_app, !length_uint_bits, length_address_bits by exact Hh.
    cbn [length]. unfold capacity. lia.
Qed.

Lemma first_byte_differs (h1 h2 : Buffer) :
  hd x00 h1 <> hd x00 h2 ->
  Ok (Some (mkAddress 0 h1)) <> Ok (Some (mkAddress 0 h2)).
Proof. intros N H. apply N. congruence. Qed.

(** The claim fails at the values of the tests: the address [keyToAddress]
    returns is not the address of the storage tuple (verifierKey,
    contentKey, registryAddress, empty-content-marker), and its storage has
    523 bits where the tuple has 780. *)
Lemma keyToAddress_is_not_the_spec_derivation :
  keyToAddress newCodeCell spec_verifier spec_codeCellHash registry_address
  = Ok (Some (mkAddress 0
         (of_hex "c0bc43097cb82758b074a3f8570dc593d5d94faeeed21512ac847b4da5e1330c")))
  /\ AddressDerivation_spec newCodeCell spec_verifier spec_codeCellHash registry_address
     = Ok (Some (mkAddress 0
            (of_hex "67552a6a1a82f25e9126bbc64f074c50d4615bcae7b5ef8e232e220baa1196e2")))
  /\ keyToAddress newCodeCell spec_verifier spec_codeCellHash registry_address
     <> AddressDerivation_spec newCodeCell spec_verifier spec_codeCellHash registry_address
  /\ (exists storage,
        initialStorage_spec (BN_of_bytes (toSha256Buffer spec_verifier))
          (BN_of_bytes (Buffer_from_base64 spec_codeCellHash)) registry_address
        = Ok storage
        /\ length (cell_bits storage) = 780%nat
        /\ length (cell_bits (dataCell spec_verifier spec_codeCellHash registry_address))
           = 523%nat).
Proof.
  assert (keyToAddress newCodeCell spec_verifier spec_codeCellHash registry_address
          = Ok (Some (mkAddress 0
                 (of_hex "c0bc43097cb82758b074a3f8570dc593d5d94faeeed21512ac847b4da5e1330c"))))
    as E1 by (vm_compute; reflexivity).
  assert (AddressDerivation_spec newCodeCell spec_verifier spec_codeCellHash registry_address
          = Ok (Some (mkAddress 0
                 (of_hex "67552a6a1a82f25e9126bbc64f074c50d4615bcae7b5ef8e232e220baa1196e2"))))
    as E2 by (vm_compute; reflexivity).
  split; [exact E1|]. split; [exact E2|]. split.
  - rewrite E1, E2. apply first_byte_differs. cbn. discriminate.
  - eexists. split; [|split].
    + apply initialStorage_spec_bits.
      * pose proof (BN_of_bytes_range (toSha256Buffer spec_verifier)) as R.
        unfold toSha256Buffer in *. rewrite length_sha256 in R. exact R.
      * assert (length (Buffer_from_base64 spec_codeCellHash) = 32%nat) as L
          by (vm_compute; reflexivity).
        pose proof (BN_of_bytes_range (Buffer_from_base64 spec_codeCellHash)) as R.
        rewrite L in R. exact R.
      * split; [cbn; lia | reflexivity].
    + cbn [cell_bits]. rewrite !length_app, !length_uint_bits, length_address_bits by reflexivity.
      reflexivity.
    + unfold dataCell. cbn [cell_bits].
      rewrite length_app, length_bytes_bits, length_address_bits by reflexivity.
      unfold prepareKey. rewrite length_sha256. reflexivity.
Qed.

(** The child the registry deploys is keyed by the two numbers of the
    deploy message, which the tests pass to the getter of its address, and
    [keyToAddress] is keyed by the digest of the two texts: the texts [AQI=]
    and [AQI] of one content hash give one deploy message and one pair of
    arguments of the getter, and two addresses of [keyToAddress]. *)
Lemma keyToAddress_splits_one_deploy_key :
  (exists c, deploySource spec_verifier "AQI=" spec_jsonURL = Ok c
             /\ deploySource spec_verifier "AQI" spec_jsonURL = Ok c)
  /\ Deploy.childAddressFromChain_args spec_verifier "AQI="
     = Deploy.childAddressFromChain_args spec_verifier "AQI"
  /\ exists a1 a2,
       keyToAddress newCodeCell spec_verifier "AQI=" registry_address = Ok (Some a1)
       /\ keyToAddress newCodeCell spec_verifier "AQI" registry_address = Ok (Some a2)
       /\ a1 <> a2.
Proof.
  split; [|split].
  - eexists. split; vm_compute; reflexivity.
  - vm_compute. reflexivity.
  - eexists. eexists. split; [vm_compute; reflexivity|].
    split; [vm_compute; reflexivity|].
    intros E. apply (f_equal hash) in E. cbn [hash] in E.
    apply Buffer_eqb_eq in E. cbn in E. discriminate.
Qed.

(* ================================================================== *)
(** ** C4: [prepareKey] *)

Lemma Buffer_eq_dec (x y : Buffer) : {x = y} + {x <> y}.
Proof.
  destruct (Buffer_eqb x y) eqn:E.
  - left. now apply Buffer_eqb_eq.
  - right. intros H. apply Buffer_eqb_eq in H. congruence.
Qed.

(** C4, as the code has it. [prepareKey] is the 32-byte SHA-256 digest of the
    identity, a colon and the content hash; for content hashes without a
    colon, two keys are equal exactly when the two pairs are equal or the
    two digested texts are a SHA-256 collision. *)
Theorem prepareKey_equal_iff (v1 c1 v2 c2 : string) :
  no_separator c1 -> no_separator c2 ->
  prepareKey v1 c1 = sha256 (utf8 (v1 ++ ":" ++ c1)%string)
  /\ length (prepareKey v1 c1) = 32%nat
  /\ (prepareKey v1 c1 = prepareKey v2 c2
      <-> (v1, c1) = (v2, c2)
          \/ digest_collision (utf8 (v1 ++ ":" ++ c1)%string) (utf8 (v2 ++ ":" ++ c2)%string)).
Proof.
  intros N1 N2. split; [reflexivity|]. split; [apply length_sha256|].
  unfold prepareKey, digest_collision. rewrite !utf8_key. split.
  - intros H.
    destruct (Buffer_eq_dec (key_preimage v1 c1) (key_preimage v2 c2)) as [E|E].
    + left. apply key_preimage_inj in E as [-> ->]; auto.
    + right. auto.
  - intros [E|[_ E]]; [|exact E].
    assert (v1 = v2) as -> by congruence. assert (c1 = c2) as -> by congruence.
    reflexivity.
Qed.

Lemma no_separator_spec_codeCellHash : no_separator spec_codeCellHash.
Proof. intros H. vm_compute in H. intuition discriminate. Qed.

Lemma prepareKey_equal_iff_witness :
  prepareKey spec_verifier spec_codeCellHash
  = sha256 (utf8 (spec_verifier ++ ":" ++ spec_codeCellHash)%string)
  /\ length (prepareKey spec_verifier spec_codeCellHash) = 32%nat
  /\ (prepareKey spec_verifier spec_codeCellHash
      = prepareKey (spec_verifier ++ "1") spec_codeCellHash
      <-> (spec_verifier, spec_codeCellHash)
          = ((spec_verifier ++ "1")%string, spec_codeCellHash)
          \/ digest_collision
               (utf8 (spec_verifier ++ ":" ++ spec_codeCellHash)%string)
               (utf8 ((spec_verifier ++ "1") ++ ":" ++ spec_codeCellHash)%string)).
Proof.
  apply (prepareKey_equal_iff spec_verifier spec_codeCellHash
           (spec_verifier ++ "1") spec_codeCellHash);
    exact no_separator_spec_codeCellHash.
Defined.

(** The claim fails where an input holds the separator: two different
    pairs are digested as the one text [a:b:c], and this is no collision of
    the digest. *)
Lemma prepareKey_separator_ambiguity :
  prepareKey "a:b" "c" = prepareKey "a" "b:c"
  /\ ("a:b", "c") <> ("a", "b:c")
  /\ ~ digest_collision (utf8 ("a:b" ++ ":" ++ "c")%string) (utf8 ("a" ++ ":" ++ "b:c")%string).
Proof.
  split; [reflexivity|]. split; [discriminate|].
  intros [N _]. apply N. reflexivity.
Qed.

(* ================================================================== *)
(** ** The message encoders *)

Lemma header_eq (op : Z) :
  0 <= op < 2 ^ 32 -> header op = Ok (mkBuilder (header_bits op) []).
Proof.
  intros H. unfold header, beginCell. cbn [bind].
  rewrite storeUint_fits by (try discriminate; exact H).
  change (writeBits (uint_bits 32 op) (mkBuilder [] []) |> storeUint 0 64)
    with (writeBits (uint_bits 32 op) (mkBuilder [] []) |> writeBits (uint_bits 64 0)).
  rewrite writeBits_then. apply writeBits_ok.
  cbn [b_bits length]. rewrite length_app, !length_uint_bits. unfold capacity. lia.
Qed.

Lemma firstn_skipn_app {A : Type} (l rest : list A) :
  firstn (length l) (l ++ rest) = l /\ skipn (length l) (l ++ rest) = rest.
Proof.
  induction l as [|a l [IH1 IH2]]; [split; reflexivity|].
  cbn [length app firstn skipn]. rewrite IH1. auto.
Qed.

Lemma readUint_app (n : nat) (l rest : list bool) :
  length l = n -> readUint n (l ++ rest) = Ok (bits_to_Z l, rest).
Proof.
  intros <-. unfold readUint.
  assert ((length l <=? length (l ++ rest))%nat = true) as ->
    by (apply Nat.leb_le; rewrite length_app; lia).
  destruct (firstn_skipn_app l rest) as [-> ->]. reflexivity.
Qed.

Lemma header_fields (op : Z) (rest : list bool) (refs : list Cell) :
  0 <= op < 2 ^ 32 ->
  op_of (mkCell (header_bits op ++ rest) refs) = Some op
  /\ query_id_of (mkCell (header_bits op ++ rest) refs) = Some 0.
Proof.
  intros H. unfold op_of, query_id_of, beginParse, header_bits. cbn [cell_bits].
  rewrite <- !app_assoc.
  rewrite (readUint_app 32) by apply length_uint_bits.
  rewrite (readUint_app 64) by apply length_uint_bits.
  rewrite bits_to_Z_uint_bits, Z.mod_small by exact H.
  split; reflexivity.
Qed.

Lemma keeps_bits_then (f g : Builder -> result Builder) :
  keeps_bits f -> keeps_bits g -> keeps_bits (fun b => f b |> g).
Proof.
  intros F G b b' H. destruct (f b) as [x|e] eqn:E; cbn [bind] in H; [|discriminate].
  destruct (F _ _ E) as [l1 H1]. destruct (G _ _ H) as [l2 H2].
  exists (l1 ++ l2). now rewrite H2, H1, app_assoc.
Qed.

Lemma keeps_bits_writeBits (l : list bool) : keeps_bits (writeBits l).
Proof.
  intros b b' H. unfold writeBits in H.
  destruct (_ <=? _)%nat; [|discriminate].
  exists l. now inversion H.
Qed.

Lemma keeps_bits_storeUint (v : Z) (n : nat) : keeps_bits (storeUint v n).
Proof.
  intros b b' H. unfold storeUint in H.
  destruct (_ || _).
  - destruct (v =? 0); [|discriminate]. exists []. inversion H. now rewrite app_nil_r.
  - now apply keeps_bits_writeBits in H.
Qed.

Lemma keeps_bits_storeInt (v : Z) (n : nat) : keeps_bits (storeInt v n).
Proof.
  unfold storeInt, storeBit. intros b b' H.
  destruct (n =? 1)%nat.
  - destruct (v =? -1); [now apply keeps_bits_writeBits in H|].
    destruct (v =? 0); [now apply keeps_bits_writeBits in H | discriminate].
  - destruct (v <? 0);
      revert H; apply (keeps_bits_then _ _ (keeps_bits_writeBits _) (keeps_bits_storeUint _ _)).
Qed.

Lemma keeps_bits_storeBuffer (buf : Buffer) : keeps_bits (storeBuffer buf).
Proof. apply keeps_bits_writeBits. Qed.

Lemma keeps_bits_storeCoins (amount : Z) : keeps_bits (storeCoins amount).
Proof.
  unfold storeCoins. intros b b' H. destruct (amount =? 0).
  - now apply keeps_bits_storeUint in H.
  - revert H.
    apply (keeps_bits_then _ _ (keeps_bits_storeUint _ _) (keeps_bits_storeUint _ _)).
Qed.

Lemma keeps_bits_storeAddress (a : Address) : keeps_bits (storeAddress a).
Proof.
  unfold storeAddress.
  apply (keeps_bits_then (fun b => storeUint 2 2 b |> storeUint 0 1 |> storeInt (workChain a) 8)).
  - apply (keeps_bits_then (fun b => storeUint 2 2 b |> storeUint 0 1)).
    + apply keeps_bits_then; apply keeps_bits_storeUint.
    + apply keeps_bits_storeInt.
  - apply keeps_bits_storeBuffer.
Qed.

Lemma keeps_bits_storeRef (c : Cell) : keeps_bits (storeRef c).
Proof. intros b b' H. exists []. inversion H. cbn. now rewrite app_nil_r. Qed.

(** A message that starts with [header op] and goes on with stores that keep
    the bits before them carries the tag [op] and the query identifier 0. *)
Lemma header_then (op : Z) (f : Builder -> result Builder) (c : Cell) :
  0 <= op < 2 ^ 32 -> keeps_bits f ->
  endCell (header op |> f) = Ok c -> op_of c = Some op /\ query_id_of c = Some 0.
Proof.
  intros Hop F H. rewrite header_eq in H by exact Hop. cbn [bind] in H.
  unfold endCell in H.
  destruct (f _) as [b|e] eqn:E; cbn [bind] in H; [|discriminate].
  apply F in E as [l E]. cbn [b_bits] in E.
  inversion H. rewrite E. now apply header_fields.
Qed.

(* ================================================================== *)
(** ** [deploySource] *)

(** What [deploySource] returns, case by case: the content hash that does
    not fit 256 bits is refused first, then the pointer that does not fit
    a cell. *)
Lemma deploySource_eq (verifierId codeCellHash jsonURL : string) :
  deploySource verifierId codeCellHash jsonURL
  = if 2 ^ 256 <=? contentKey_of codeCellHash then Err BitLengthTooSmall
    else if (8 * length (utf8 jsonURL) <=? capacity)%nat
    then Ok (mkCell (header_bits 1002
                     ++ bytes_bits (toSha256Buffer verifierId)
                     ++ uint_bits 256 (contentKey_of codeCellHash))
                    [mkCell (bytes_bits (utf8 jsonURL)) []])
    else Err InvalidIndex.
Proof.
  unfold deploySource, contentKey_of.
  fold (header 1002). rewrite header_eq by (cbn; lia).
  cbn [bind]. unfold storeBuffer at 1.
  rewrite writeBits_ok.
  2:{ cbn [b_bits]. rewrite length_bytes_bits. unfold toSha256Buffer.
      rewrite length_sha256. cbn. unfold capacity. lia. }
  cbn [bind b_bits b_refs].
  pose proof (BN_of_bytes_range (Buffer_from_base64 codeCellHash)) as [R _].
  destruct (Z.leb_spec (2 ^ 256) (BN_of_bytes (Buffer_from_base64 codeCellHash))) as [L|L].
  - rewrite storeUint_too_small by exact L. reflexivity.
  - rewrite storeUint_fits by first [discriminate | split; [exact R | exact L]].
    rewrite writeBits_ok.
    2:{ cbn [b_bits]. rewrite !length_app, length_bytes_bits, length_uint_bits.
        unfold toSha256Buffer. rewrite length_sha256. cbn. unfold capacity. lia. }
    cbn [bind b_bits b_refs]. unfold beginCell, storeBuffer, writeBits.
    cbn [bind b_bits b_refs length Nat.add]. rewrite length_bytes_bits.
    destruct (8 * length (utf8 jsonURL) <=? capacity)%nat; cbn [bind endCell app].
    + unfold storeRef. cbn [bind b_bits b_refs app].
      now rewrite <- !app_assoc.
    + reflexivity.
Qed.

(** C3, as the code has it. For a content hash whose decoded value fits 256
    bits and a pointer of at most 128 bytes, [deploySource] returns a cell
    whose bits are, in order, the 32-bit tag 1002, the 64-bit query
    identifier 0, the SHA-256 digest of the identity and the decoded content
    hash as a 256-bit number, and whose one reference holds the bytes of the
    pointer; when the content hash decodes to 32 bytes the fourth field is
    these bytes. *)
Theorem deploySource_layout (verifierId codeCellHash jsonURL : string) :
  contentKey_of codeCellHash < 2 ^ 256 ->
  (length (utf8 jsonURL) <= 128)%nat ->
  deploySource verifierId codeCellHash jsonURL
  = Ok (mkCell (uint_bits 32 1002
                ++ uint_bits 64 0
                ++ bytes_bits (sha256 (utf8 verifierId))
                ++ uint_bits 256 (contentKey_of codeCellHash))
               [mkCell (bytes_bits (utf8 jsonURL)) []])
  /\ (length (Buffer_from_base64 codeCellHash) = 32%nat ->
      uint_bits 256 (contentKey_of codeCellHash)
      = bytes_bits (Buffer_from_base64 codeCellHash)).
Proof.
  intros Hk Hu. split.
  - rewrite deploySource_eq.
    destruct (Z.leb_spec (2 ^ 256) (contentKey_of codeCellHash)); [lia|].
    assert ((8 * length (utf8 jsonURL) <=? capacity)%nat = true) as ->
      by (apply Nat.leb_le; unfold capacity; lia).
    unfold header_bits, toSha256Buffer. now rewrite <- !app_assoc.
  - intros L. unfold contentKey_of.
    change 256%nat with (8 * 32)%nat. rewrite <- L. apply uint_bits_BN_of_bytes.
Qed.

Lemma deploySource_layout_witness :
  deploySource spec_verifier spec_codeCellHash spec_jsonURL
  = Ok (mkCell (uint_bits 32 1002
                ++ uint_bits 64 0
                ++ bytes_bits (sha256 (utf8 spec_verifier))
                ++ uint_bits 256 (contentKey_of spec_codeCellHash))
               [mkCell (bytes_bits (utf8 spec_jsonURL)) []])
  /\ (length (Buffer_from_base64 spec_codeCellHash) = 32%nat ->
      uint_bits 256 (contentKey_of spec_codeCellHash)
      = bytes_bits (Buffer_from_base64 spec_codeCellHash)).
Proof.
  apply (deploySource_layout spec_verifier spec_codeCellHash spec_jsonURL).
  - vm_compute. reflexivity.
  - vm_compute. lia.
Defined.

(** The claim fails for a pointer that does not fit a cell: for one of 202
    bytes the write of the bit at the index 1024 throws, and no message
    cell is produced. *)
Lemma deploySource_long_pointer_throws :
  deploySource spec_verifier spec_codeCellHash long_jsonURL = Err InvalidIndex.
Proof. vm_compute. reflexivity. Qed.

(* ================================================================== *)
(** ** C9: what makes the key derivation of [deploySource] fail *)

(** C9, as the code has it. No content hash makes [deploySource] fail with
    an encoding error, well-formed base64 or not: the decoder is total, and
    for a pointer of at most 128 bytes [deploySource] returns a message when
    the decoded content hash fits 256 bits and throws "bitLength is too
    small" when it does not. *)
Theorem deploySource_failure_modes (verifierId codeCellHash jsonURL : string) :
  (length (utf8 jsonURL) <= 128)%nat ->
  (contentKey_of codeCellHash < 2 ^ 256 ->
   exists c, deploySource verifierId codeCellHash jsonURL = Ok c)
  /\ (2 ^ 256 <= contentKey_of codeCellHash ->
      deploySource verifierId codeCellHash jsonURL = Err BitLengthTooSmall).
Proof.
  intros Hu. rewrite deploySource_eq.
  assert ((8 * length (utf8 jsonURL) <=? capacity)%nat = true) as ->
    by (apply Nat.leb_le; unfold capacity; lia).
  destruct (Z.leb_spec (2 ^ 256) (contentKey_of codeCellHash)); split; intros H';
    try lia; eauto.
Qed.

Lemma deploySource_failure_modes_witness :
  (exists c, deploySource spec_verifier "!!!!" spec_jsonURL = Ok c)
  /\ deploySource spec_verifier "////////////////////////////////////////////" spec_jsonURL
     = Err BitLengthTooSmall.
Proof.
  split.
  - apply (proj1 (deploySource_failure_modes spec_verifier "!!!!" spec_jsonURL
                    ltac:(vm_compute; lia))).
    vm_compute. reflexivity.
  - apply (proj2 (deploySource_failure_modes spec_verifier
                    "////////////////////////////////////////////" spec_jsonURL
                    ltac:(vm_compute; lia))).
    vm_compute. discriminate.
Defined.

(** The claim fails both ways: a content hash that is no base64 gives a
    message (its key field is zero), and a well-formed base64 text of 44
    characters that decodes to 33 bytes makes [deploySource] throw. *)
Lemma deploySource_base64_counterexample :
  well_formed_base64 "!!!!" = false
  /\ deploySource spec_verifier "!!!!" spec_jsonURL
     = Ok (mkCell (uint_bits 32 1002 ++ uint_bits 64 0
                   ++ bytes_bits (sha256 (utf8 spec_verifier)) ++ uint_bits 256 0)
                  [mkCell (bytes_bits (utf8 spec_jsonURL)) []])
  /\ well_formed_base64 "////////////////////////////////////////////" = true
  /\ deploySource spec_verifier "////////////////////////////////////////////" spec_jsonURL
     = Err BitLengthTooSmall.
Proof.
  split; [reflexivity|]. split; [vm_compute; reflexivity|].
  split; [reflexivity|]. vm_compute. reflexivity.
Qed.

(* ================================================================== *)
(** ** C10: the query identifier *)

(** C10. Whatever their arguments, the six encoders return a message whose
    tag is the operation's and whose 64-bit query identifier is 0. *)
Theorem encoders_write_query_id_zero :
  (forall verifierId codeCellHash jsonURL c,
      deploySource verifierId codeCellHash jsonURL = Ok c ->
      op_of c = Some 1002 /\ query_id_of c = Some 0)
  /\ (forall newVerifierRegistry c,
         changeVerifierRegistry newVerifierRegistry = Ok c ->
         op_of c = Some 2003 /\ query_id_of c = Some 0)
  /\ (forall newAdmin c,
         changeAdmin newAdmin = Ok c -> op_of c = Some 3004 /\ query_id_of c = Some 0)
  /\ (forall newCode c,
         setSourceItemCode newCode = Ok c -> op_of c = Some 4005 /\ query_id_of c = Some 0)
  /\ (forall newCode c,
         changeCode newCode = Ok c -> op_of c = Some 5006 /\ query_id_of c = Some 0)
  /\ (forall minTon maxTon c,
         setDeploymentCosts minTon maxTon = Ok c ->
         op_of c = Some 6007 /\ query_id_of c = Some 0).
Proof.
  refine (conj _ (conj _ (conj _ (conj _ (conj _ _))))).
  - intros verifierId codeCellHash jsonURL c H.
    rewrite deploySource_eq in H.
    destruct (_ <=? _) in H; [discriminate|].
    destruct (_ <=? _)%nat in H; [|discriminate].
    apply (f_equal (fun r => match r with Ok x => x | Err _ => c end)) in H.
    subst c. apply header_fields. cbn. lia.
  - intros a c. apply (header_then 2003 (storeAddress a));
      [cbn; lia | apply keeps_bits_storeAddress].
  - intros a c. apply (header_then 3004 (storeAddress a));
      [cbn; lia | apply keeps_bits_storeAddress].
  - intros newCode c. apply (header_then 4005 (storeRef newCode));
      [cbn; lia | apply keeps_bits_storeRef].
  - intros newCode c. apply (header_then 5006 (storeRef newCode));
      [cbn; lia | apply keeps_bits_storeRef].
  - intros minTon maxTon c.
    apply (header_then 6007 (fun b => storeCoins minTon b |> storeCoins maxTon));
      [cbn; lia | apply keeps_bits_then; apply keeps_bits_storeCoins].
Qed.

Lemma encoders_write_query_id_zero_witness :
  (exists c, deploySource spec_verifier spec_codeCellHash spec_jsonURL = Ok c
             /\ op_of c = Some 1002 /\ query_id_of c = Some 0)
  /\ (exists c, changeVerifierRegistry verifier_registry_address = Ok c
                /\ op_of c = Some 2003 /\ query_id_of c = Some 0)
  /\ (exists c, changeAdmin admin_address = Ok c
                /\ op_of c = Some 3004 /\ query_id_of c = Some 0)
  /\ (exists c, setSourceItemCode newCodeCell = Ok c
                /\ op_of c = Some 4005 /\ query_id_of c = Some 0)
  /\ (exists c, changeCode newCodeCell = Ok c
                /\ op_of c = Some 5006 /\ query_id_of c = Some 0)
  /\ (exists c, setDeploymentCosts 10000000000 20000000000 = Ok c
                /\ op_of c = Some 6007 /\ query_id_of c = Some 0).
Proof.
  destruct encoders_write_query_id_zero as (H1 & H2 & H3 & H4 & H5 & H6).
  refine (conj _ (conj _ (conj _ (conj _ (conj _ _))))); eexists.
  - split; [vm_compute; reflexivity | apply (H1 spec_verifier spec_codeCellHash spec_jsonURL)].
    vm_compute. reflexivity.
  - split; [vm_compute; reflexivity | apply (H2 verifier_registry_address)].
    vm_compute. reflexivity.
  - split; [vm_compute; reflexivity | apply (H3 admin_address)]. vm_compute. reflexivity.
  - split; [vm_compute; reflexivity | apply (H4 newCodeCell)]. vm_compute. reflexivity.
  - split; [vm_compute; reflexivity | apply (H5 newCodeCell)]. vm_compute. reflexivity.
  - split; [vm_compute; reflexivity | apply (H6 10000000000 20000000000)].
    vm_compute. reflexivity.
Defined.

(* ================================================================== *)
(** ** The other encoders: what they return *)

(** X1. The messages that change the verifier registry and the admin are,
    for a valid address, the header of their operation followed by the 267
    bits of the address, with no reference. *)
Theorem address_messages_layout (a : Address) :
  valid_address a ->
  changeVerifierRegistry a = Ok (mkCell (header_bits 2003 ++ address_bits a) [])
  /\ changeAdmin a = Ok (mkCell (header_bits 3004 ++ address_bits a) []).
Proof.
  intros [Hwc Hh].
  assert (forall op, 0 <= op < 2 ^ 32 ->
            endCell (header op |> storeAddress a)
            = Ok (mkCell (header_bits op ++ address_bits a) [])) as G.
  { intros op Hop. rewrite header_eq by exact Hop. cbn [bind].
    rewrite storeAddress_eq by exact Hwc. rewrite writeBits_ok; [reflexivity|].
    cbn [b_bits]. unfold header_bits.
    rewrite length_app, !length_uint_bits, length_address_bits by exact Hh.
    unfold capacity. lia. }
  split; [apply (G 2003) | apply (G 3004)]; cbn; lia.
Qed.

Lemma address_messages_layout_witness :
  changeVerifierRegistry verifier_registry_address
  = Ok (mkCell (header_bits 2003 ++ address_bits verifier_registry_address) [])
  /\ changeAdmin verifier_registry_address
     = Ok (mkCell (header_bits 3004 ++ address_bits verifier_registry_address) []).
Proof.
  apply (address_messages_layout verifier_registry_address).
  split; [cbn; lia | reflexivity].
Defined.

(** X2. The messages that set the code of the source items and of the
    registry never throw: they are the header of their operation and one reference,
    the new code, whatever that cell is. *)
Theorem code_messages_layout (newCode : Cell) :
  setSourceItemCode newCode = Ok (mkCell (header_bits 4005) [newCode])
  /\ changeCode newCode = Ok (mkCell (header_bits 5006) [newCode]).
Proof.
  unfold setSourceItemCode, changeCode.
  fold (header 4005). fold (header 5006).
  rewrite !header_eq by (cbn; lia). split; reflexivity.
Qed.

(* ================================================================== *)
(** ** [toString("ascii")] and the reader of the tests *)

Lemma clear_high_bit (b : byte) :
  byte_of_Z (Z.land (Z_of_byte b) 127) = b <-> Z_of_byte b < 128.
Proof.
  pose proof (Z_of_byte_range b) as R.
  change 127 with (Z.ones 7). rewrite Z.land_ones by lia. change (2 ^ 7) with 128.
  split; intros H.
  - apply (f_equal Z_of_byte) in H. rewrite Z_of_byte_of_Z in H.
    pose proof (Z.mod_pos_bound (Z_of_byte b) 128 ltac:(lia)).
    rewrite Z.mod_small in H by lia. lia.
  - rewrite Z.mod_small by lia. apply byte_of_Z_of_byte.
Qed.

Lemma toString_ascii_utf8 (s : string) :
  Deploy.toString_ascii (utf8 s) = s <-> Forall (fun b => Z_of_byte b < 128) (utf8 s).
Proof.
  unfold Deploy.toString_ascii, utf8. split; intros H.
  - apply (f_equal list_byte_of_string) in H.
    rewrite list_byte_of_string_of_list_byte in H.
    induction (list_byte_of_string s) as [|b l IH]; [constructor|].
    cbn [map] in H. injection H as Hb Hl.
    constructor; [now apply clear_high_bit | now apply IH].
  - rewrite <- (string_of_list_byte_of_string s) at 2. f_equal.
    induction H as [|b l Hb Hl IH]; [reflexivity|].
    cbn [map]. f_equal; [now apply clear_high_bit | exact IH].
Qed.

Lemma toString_ascii_bytes (buf : Buffer) :
  utf8 (Deploy.toString_ascii buf) = buf <-> Forall (fun b => Z_of_byte b < 128) buf.
Proof.
  unfold Deploy.toString_ascii, utf8. rewrite list_byte_of_string_of_list_byte.
  split; intros H.
  - induction buf as [|b l IH]; [constructor|].
    cbn [map] in H. injection H as Hb Hl.
    constructor; [now apply clear_high_bit | now apply IH].
  - induction H as [|b l Hb Hl IH]; [reflexivity|].
    cbn [map]. f_equal; [now apply clear_high_bit | exact IH].
Qed.

(** The reader of the tests on a cell that holds whole bytes. *)
Lemma parseUrl_of_bytes (buf : Buffer) :
  Deploy.parseUrlFromGetSourceItemData (Some (mkCell (bytes_bits buf) []))
  = Some (Some (Deploy.toString_ascii buf)).
Proof.
  unfold Deploy.parseUrlFromGetSourceItemData, Deploy.readRemainingBytes, beginParse.
  cbn [cell_bits]. rewrite length_bytes_bits, Nat.mul_comm, Nat.Div0.mod_mul.
  cbn [Nat.eqb]. now rewrite bits_bytes_bytes_bits.
Qed.

(* ================================================================== *)
(** ** The registry: fees, senders and the child record *)

Lemma Address_eqb_eq (a b : Address) : Address_eqb a b = true <-> a = b.
Proof.
  unfold Address_eqb. rewrite andb_true_iff, Z.eqb_eq, Buffer_eqb_eq.
  destruct a as [w1 h1], b as [w2 h2]. cbn [workChain hash]. split.
  - intros [-> ->]. reflexivity.
  - intros H. split; congruence.
Qed.

Lemma Address_eqb_refl (a : Address) : Address_eqb a a = true.
Proof. now apply Address_eqb_eq. Qed.

Lemma Address_eqb_neq (a b : Address) : a <> b -> Address_eqb a b = false.
Proof.
  intros N. destruct (Address_eqb a b) eqn:E; [|reflexivity].
  apply Address_eqb_eq in E. contradiction.
Qed.

Lemma Address_eqb_false (a b : Address) : Address_eqb a b = false -> a <> b.
Proof. intros E H. apply Address_eqb_eq in H. congruence. Qed.

Module RegistryFacts.
Import Registry.

Section Facts.

Variable minFeeFloor : Z.
Variable deriveAddress : Z -> Z -> Address -> Cell -> Address.
Variable self : Address.

Local Abbreviation apply := (Registry.apply minFeeFloor deriveAddress self).
Local Abbreviation state_after := (Registry.state_after minFeeFloor deriveAddress self).

(** C5, as the model has it. A deploy from the verifier source is rejected
    with 900 below the minimum fee, with 901 above the maximum fee when it
    is not below the minimum, and deploys the child with code 0 from the
    minimum to the maximum, both included. *)
Theorem deploy_fee_bounds (state : RegistryState) (context : ExecutionContext)
    (vk ck : Z) (pointer : Buffer) :
  senderAddress context = verifierSource state ->
  (attachedValue context < minFee state ->
   apply state context (DeploySource vk ck pointer) = Rejected 900)
  /\ (minFee state <= attachedValue context -> maxFee state < attachedValue context ->
      apply state context (DeploySource vk ck pointer) = Rejected 901)
  /\ (minFee state <= attachedValue context <= maxFee state ->
      exit_code (apply state context (DeploySource vk ck pointer)) = 0
      /\ exists action,
           apply state context (DeploySource vk ck pointer) = Applied state (Some action)).
Proof.
  intros S. unfold Registry.apply. rewrite S, Address_eqb_refl. cbn [negb].
  repeat split; intros.
  - destruct (Z.ltb_spec (attachedValue context) (minFee state)); [reflexivity | lia].
  - destruct (Z.ltb_spec (attachedValue context) (minFee state)); [lia|].
    destruct (Z.ltb_spec (maxFee state) (attachedValue context)); [reflexivity | lia].
  - destruct (Z.ltb_spec (attachedValue context) (minFee state)); [lia|].
    destruct (Z.ltb_spec (maxFee state) (attachedValue context)); [lia | reflexivity].
  - destruct (Z.ltb_spec (attachedValue context) (minFee state)); [lia|].
    destruct (Z.ltb_spec (maxFee state) (attachedValue context)); [lia | eauto].
Qed.

(** C6. A deploy whose sender is not the stored verifier source, and an
    operation of the admin whose sender is not the stored admin, are
    rejected with 401, and the registry keeps its state. *)
Theorem unauthorized_sender_rejected (state : RegistryState) (context : ExecutionContext) :
  (forall vk ck pointer,
      senderAddress context <> verifierSource state ->
      apply state context (DeploySource vk ck pointer) = Rejected 401
      /\ state_after state context (DeploySource vk ck pointer) = state)
  /\ (forall message,
         admin_gated message ->
         senderAddress context <> admin state ->
         apply state context message = Rejected 401
         /\ state_after state context message = state).
Proof.
  split.
  - intros vk ck pointer N. unfold Registry.state_after, Registry.apply.
    rewrite (Address_eqb_neq _ _ N). split; reflexivity.
  - intros message G N. unfold Registry.state_after, Registry.apply.
    destruct message; try contradiction;
      rewrite (Address_eqb_neq _ _ N); split; reflexivity.
Qed.

(** C7, as the tests have it. With a floor the test of the lower bound
    passes with, [SetFeeBounds] of the admin sets both bounds when the new
    minimum is at or above the floor, is rejected with 903 when it is below,
    and never looks at the new maximum; the floor is above 0.05 of the
    native unit. *)
Theorem set_fee_bounds_floor (state : RegistryState) (context : ExecutionContext)
    (newMin newMax : Z) :
  test_rejects_min_below_lower_bound minFeeFloor ->
  senderAddress context = admin state ->
  50000000 < minFeeFloor
  /\ (minFeeFloor <= newMin ->
      apply state context (SetFeeBounds newMin newMax)
      = Applied (mkState (admin state) (verifierSource state) newMin newMax
                         (childCodeTemplate state)) None)
  /\ (newMin < minFeeFloor ->
      apply state context (SetFeeBounds newMin newMax) = Rejected 903).
Proof.
  intros T S. split; [|split].
  - unfold test_rejects_min_below_lower_bound, Registry.apply in T.
    cbn [senderAddress admin test_state] in T.
    rewrite Address_eqb_refl in T. cbn [negb] in T.
    destruct (Z.ltb_spec 50000000 minFeeFloor); [assumption|].
    cbn in T. discriminate T.
  - intros H. unfold Registry.apply. rewrite S, Address_eqb_refl. cbn [negb].
    destruct (Z.ltb_spec newMin minFeeFloor); [lia | reflexivity].
  - intros H. unfold Registry.apply. rewrite S, Address_eqb_refl. cbn [negb].
    destruct (Z.ltb_spec newMin minFeeFloor); [reflexivity | lia].
Qed.

(** C8. The child a deploy creates reports no pointer, and the reader of the
    tests returns [null] for it; it refuses a message of any other sender
    than its registry, and so goes on reporting none; and once it has the
    message the registry forwards to it, its query reports exactly the
    bytes of the pointer of the deploy request.  The reader of the tests
    then returns these bytes decoded by [toString("ascii")], which are the
    pointer's own text exactly when all its bytes are below 128. *)
Theorem child_pointer_null_until_set (state : RegistryState) (context : ExecutionContext)
    (vk ck : Z) (pointer : Buffer) :
  senderAddress context = verifierSource state ->
  minFee state <= attachedValue context <= maxFee state ->
  exists dest child body,
    apply state context (DeploySource vk ck pointer)
    = Applied state (Some (CreateChild dest (childCodeTemplate state) child body))
    /\ get_source_item_data child = (vk, ck, self, None)
    /\ parseUrlFromGetSourceItemData child = Some None
    /\ (forall sender message,
           sender <> self -> child_receive child sender message = inr NotTheRegistry)
    /\ exists child',
         child_receive child self body = inl child'
         /\ get_source_item_data child' = (vk, ck, self, Some pointer)
         /\ parseUrlFromGetSourceItemData child'
            = Some (Some (Deploy.toString_ascii pointer))
         /\ (utf8 (Deploy.toString_ascii pointer) = pointer
             <-> Forall (fun b => Z_of_byte b < 128) pointer).
Proof.
  intros S V. unfold Registry.apply. rewrite S, Address_eqb_refl. cbn [negb].
  destruct (Z.ltb_spec (attachedValue context) (minFee state)); [lia|].
  destruct (Z.ltb_spec (maxFee state) (attachedValue context)); [lia|].
  eexists. eexists. eexists. split; [reflexivity|].
  split; [reflexivity|]. split; [reflexivity|]. split.
  - intros sender message N. unfold child_receive. cbn [registryAddress].
    now rewrite (Address_eqb_neq _ _ N).
  - unfold child_receive. cbn [registryAddress contentPointer].
    rewrite Address_eqb_refl. cbn [negb]. eexists. split; [reflexivity|].
    split; [reflexivity|]. split; [|apply toString_ascii_bytes].
    unfold parseUrlFromGetSourceItemData, content_cell, get_source_item_data.
    cbn [snd contentPointer option_map]. apply parseUrl_of_bytes.
Qed.

End Facts.

Lemma deploy_fee_bounds_witness :
  Registry.apply tests_floor derive_spec registry_address test_state
    (mkContext verifier_registry_address 49000000) test_deploy = Rejected 900
  /\ Registry.apply tests_floor derive_spec registry_address test_state
       (mkContext verifier_registry_address 1010000000) test_deploy = Rejected 901
  /\ exit_code (Registry.apply tests_floor derive_spec registry_address test_state
                  (mkContext verifier_registry_address 500000000) test_deploy) = 0.
Proof.
  split; [|split].
  - apply (deploy_fee_bounds tests_floor derive_spec registry_address test_state
             (mkContext verifier_registry_address 49000000));
      [reflexivity | vm_compute; reflexivity].
  - apply (deploy_fee_bounds tests_floor derive_spec registry_address test_state
             (mkContext verifier_registry_address 1010000000));
      [reflexivity | vm_compute; discriminate | vm_compute; reflexivity].
  - apply (deploy_fee_bounds tests_floor derive_spec registry_address test_state
             (mkContext verifier_registry_address 500000000));
      [reflexivity | split; vm_compute; discriminate].
Defined.

(** The claim fails in a state the admin can set: with the bounds (10, 5) a
    deploy with exactly the minimum fee is above the maximum and rejected
    with 901. *)
Lemma deploy_at_minimum_above_maximum :
  attachedValue (mkContext verifier_registry_address 10000000000)
  = minFee (mkState admin_address verifier_registry_address 10000000000 5000000000
                    newCodeCell)
  /\ Registry.state_after tests_floor derive_spec registry_address test_state
    (mkContext admin_address 10000000) (SetFeeBounds 10000000000 5000000000)
  = mkState admin_address verifier_registry_address 10000000000 5000000000 newCodeCell
  /\ Registry.apply tests_floor derive_spec registry_address
       (mkState admin_address verifier_registry_address 10000000000 5000000000 newCodeCell)
       (mkContext verifier_registry_address 10000000000) test_deploy
     = Rejected 901.
Proof. split; [reflexivity|]. split; vm_compute; reflexivity. Qed.

Lemma unauthorized_sender_rejected_witness :
  Registry.apply tests_floor derive_spec registry_address test_state
    (mkContext admin_address 500000000) test_deploy = Rejected 401
  /\ Registry.state_after tests_floor derive_spec registry_address test_state
       (mkContext verifier_registry_address 10000000)
       (SetFeeBounds 10000000000 20000000000) = test_state.
Proof.
  split.
  - apply (proj1 (unauthorized_sender_rejected tests_floor derive_spec registry_address
                    test_state (mkContext admin_address 500000000))).
    apply Address_eqb_false. vm_compute. reflexivity.
  - apply (proj2 (unauthorized_sender_rejected tests_floor derive_spec registry_address
                    test_state (mkContext verifier_registry_address 10000000))
             (SetFeeBounds 10000000000 20000000000) I).
    apply Address_eqb_false. vm_compute. reflexivity.
Defined.

Lemma set_fee_bounds_floor_witness :
  50000000 < tests_floor
  /\ Registry.apply tests_floor derive_spec registry_address test_state
       (mkContext admin_address 10000000) (SetFeeBounds 10000000000 20000000000)
     = Applied (mkState admin_address verifier_registry_address 10000000000 20000000000
                        newCodeCell) None
  /\ Registry.apply tests_floor derive_spec registry_address test_state
       (mkContext admin_address 10000000) (SetFeeBounds 50000000 20000000000)
     = Rejected 903.
Proof.
  assert (test_rejects_min_below_lower_bound tests_floor) as T
    by (vm_compute; reflexivity).
  split; [|split].
  - apply (set_fee_bounds_floor tests_floor derive_spec registry_address test_state
             (mkContext admin_address 10000000) 10000000000 20000000000 T eq_refl).
  - apply (set_fee_bounds_floor tests_floor derive_spec registry_address test_state
             (mkContext admin_address 10000000) 10000000000 20000000000 T eq_refl).
    vm_compute. discriminate.
  - apply (set_fee_bounds_floor tests_floor derive_spec registry_address test_state
             (mkContext admin_address 10000000) 50000000 20000000000 T eq_refl).
    vm_compute. reflexivity.
Defined.

(** The claim fails at its own bound: whatever the floor, a registry that
    passes the test of the lower bound rejects the minimum 0.05 with 903,
    so it does not accept every minimum from 0.05 on. *)
Lemma set_fee_bounds_at_claimed_bound_rejected :
  ~ (exists floor,
        test_rejects_min_below_lower_bound floor
        /\ (forall newMin newMax,
               50000000 <= newMin ->
               exit_code (Registry.apply floor derive_spec registry_address test_state
                            (mkContext admin_address 10000000)
                            (SetFeeBounds newMin newMax)) = 0)).
Proof.
  intros (floor & T & C).
  specialize (C 50000000 20000000000 (Z.le_refl _)).
  unfold test_rejects_min_below_lower_bound in T. rewrite T in C. discriminate C.
Qed.

Lemma child_pointer_null_until_set_witness :
  exists dest child body,
    Registry.apply tests_floor derive_spec registry_address test_state
      (mkContext verifier_registry_address 500000000) test_deploy
    = Applied test_state (Some (CreateChild dest newCodeCell child body))
    /\ get_source_item_data child
       = (BN_of_bytes (toSha256Buffer spec_verifier), contentKey_of spec_codeCellHash,
          registry_address, None)
    /\ parseUrlFromGetSourceItemData child = Some None
    /\ (forall sender message,
           sender <> registry_address ->
           child_receive child sender message = inr NotTheRegistry)
    /\ exists child',
         child_receive child registry_address body = inl child'
         /\ get_source_item_data child'
            = (BN_of_bytes (toSha256Buffer spec_verifier), contentKey_of spec_codeCellHash,
               registry_address, Some (utf8 spec_jsonURL))
         /\ parseUrlFromGetSourceItemData child'
            = Some (Some (Deploy.toString_ascii (utf8 spec_jsonURL)))
         /\ (utf8 (Deploy.toString_ascii (utf8 spec_jsonURL)) = utf8 spec_jsonURL
             <-> Forall (fun b => Z_of_byte b < 128) (utf8 spec_jsonURL)).
Proof.
  apply (child_pointer_null_until_set tests_floor derive_spec registry_address test_state
           (mkContext verifier_registry_address 500000000)).
  - reflexivity.
  - split; vm_compute; discriminate.
Defined.

End RegistryFacts.

(* ================================================================== *)
(** ** Amounts: what [writeCoins] writes and [readCoins] reads *)

Lemma coins_length_pos (v : Z) : 0 < v -> coins_length v = Z.log2 v / 8 + 1.
Proof.
  intros H. unfold coins_length, toString16_length.
  destruct (Z.ltb_spec v 0); [lia|]. destruct (Z.eqb_spec v 0); [lia|].
  rewrite Z.abs_eq by lia.
  pose proof (Z.log2_nonneg v). Z.div_mod_to_equations. lia.
Qed.

Lemma coins_length_range (v : Z) :
  0 < v -> 1 <= coins_length v /\ (coins_length v < 16 <-> v < 2 ^ 120)
           /\ v < 2 ^ (coins_length v * 8).
Proof.
  intros H. rewrite coins_length_pos by exact H.
  pose proof (Z.log2_nonneg v) as L0.
  split; [Z.div_mod_to_equations; lia|]. split.
  - pose proof (Z.log2_lt_pow2 v 120 ltac:(lia)) as E.
    split; intros G.
    + apply E. Z.div_mod_to_equations. lia.
    + apply E in G. Z.div_mod_to_equations. lia.
  - apply Z.log2_lt_pow2; [lia|]. Z.div_mod_to_equations. lia.
Qed.

Lemma storeCoins_eq (v : Z) (b : Builder) :
  0 <= v < 2 ^ 120 -> storeCoins v b = writeBits (coins_bits v) b.
Proof.
  intros [H0 H1]. unfold storeCoins, coins_bits. fold (coins_length v).
  destruct (Z.eqb_spec v 0) as [->|N].
  - reflexivity.
  - destruct (coins_length_range v ltac:(lia)) as (L1 & L2 & L3).
    apply L2 in H1.
    rewrite storeUint_fits by first [discriminate | cbn; lia].
    rewrite <- writeBits_then.
    destruct (writeBits (uint_bits 4 (coins_length v)) b) as [b'|e]; [|reflexivity].
    cbn [bind]. apply storeUint_fits; [|lia].
    rewrite Z2Nat.id by lia. lia.
Qed.

Lemma storeCoins_too_big (v : Z) (b : Builder) :
  2 ^ 120 <= v -> storeCoins v b = Err BitLengthTooSmall.
Proof.
  intros H. unfold storeCoins. fold (coins_length v).
  destruct (Z.eqb_spec v 0) as [->|N]; [lia|].
  destruct (coins_length_range v ltac:(lia)) as (L1 & L2 & L3).
  rewrite storeUint_too_small; [reflexivity|]. cbn. lia.
Qed.

Lemma length_coins_bits (v : Z) : 0 <= v < 2 ^ 120 -> (length (coins_bits v) <= 124)%nat.
Proof.
  intros [H0 H1]. unfold coins_bits.
  destruct (Z.eqb_spec v 0) as [->|N]; [cbn; lia|].
  destruct (coins_length_range v ltac:(lia)) as (L1 & L2 & L3).
  rewrite length_app, !length_uint_bits. lia.
Qed.

Lemma readCoins_eq (l w : Z) (rest : list bool) :
  1 <= l < 16 -> 0 <= w < 2 ^ (l * 8) ->
  readCoins (uint_bits 4 l ++ uint_bits (Z.to_nat (l * 8)) w ++ rest) = Ok (w, rest).
Proof.
  intros Hl Hw. unfold readCoins.
  rewrite readUint_app by apply length_uint_bits.
  cbn [bind fst snd]. rewrite bits_to_Z_uint_bits.
  change (2 ^ Z.of_nat 4) with 16. rewrite Z.mod_small by lia.
  destruct (Z.eqb_spec l 0); [lia|].
  unfold readBuffer.
  set (k := Z.to_nat l).
  replace (Z.to_nat (l * 8)) with (8 * k)%nat by lia.
  rewrite length_app, length_uint_bits.
  assert ((8 * k <=? 8 * k + length rest)%nat = true) as -> by (apply Nat.leb_le; lia).
  cbn [bind fst snd].
  rewrite <- (length_uint_bits (8 * k) w) at 1 3.
  rewrite firstn_app, skipn_app, Nat.sub_diag, firstn_all, skipn_all.
  cbn [firstn skipn app]. rewrite app_nil_r.
  rewrite <- BN_of_bytes_bits.
  rewrite (bytes_bits_bits_bytes k) by apply length_uint_bits.
  rewrite bits_to_Z_uint_bits. f_equal. f_equal.
  apply Z.mod_small. split; [lia|].
  replace (Z.of_nat (8 * k)) with (l * 8) by lia. apply Hw.
Qed.

Lemma readCoins_coins_bits (v : Z) (rest : list bool) :
  0 <= v < 2 ^ 120 -> readCoins (coins_bits v ++ rest) = Ok (v, rest).
Proof.
  intros [H0 H1]. unfold coins_bits.
  destruct (Z.eqb_spec v 0) as [->|N].
  - unfold readCoins. rewrite readUint_app by reflexivity. reflexivity.
  - destruct (coins_length_range v ltac:(lia)) as (L1 & L2 & L3).
    apply L2 in H1. rewrite <- app_assoc. apply readCoins_eq; lia.
Qed.

(* ================================================================== *)
(** ** [setDeploymentCosts] *)

Lemma read_header_eq (op : Z) (rest : list bool) (refs : list Cell) :
  0 <= op < 2 ^ 32 ->
  read_header (mkCell (header_bits op ++ rest) refs) = Ok (op, 0, rest).
Proof.
  intros H. unfold read_header, beginParse, header_bits. cbn [cell_bits].
  rewrite <- !app_assoc.
  rewrite (readUint_app 32) by apply length_uint_bits. cbn [bind fst snd].
  rewrite (readUint_app 64) by apply length_uint_bits. cbn [bind fst snd].
  rewrite bits_to_Z_uint_bits, Z.mod_small by exact H. reflexivity.
Qed.

Lemma length_header_bits (op : Z) : length (header_bits op) = 96%nat.
Proof. unfold header_bits. now rewrite length_app, !length_uint_bits. Qed.

(** X3. For amounts that are not negative, [setDeploymentCosts] returns a
    message exactly when both are below 2^120, the largest amount fifteen
    bytes hold: the message is then the header of the operation 6007 and
    the two amounts, each as its four-bit byte count and its bytes, with no
    reference; otherwise the encoder throws "bitLength is too small". *)
Theorem setDeploymentCosts_accepts_below_2_120 (minTon maxTon : Z) :
  0 <= minTon -> 0 <= maxTon ->
  setDeploymentCosts minTon maxTon
  = if (minTon <? 2 ^ 120) && (maxTon <? 2 ^ 120)
    then Ok (mkCell (header_bits 6007 ++ coins_bits minTon ++ coins_bits maxTon) [])
    else Err BitLengthTooSmall.
Proof.
  intros Hmin Hmax. unfold setDeploymentCosts. fold (header 6007).
  rewrite header_eq by (cbn; lia). cbn [bind].
  destruct (Z.ltb_spec minTon (2 ^ 120)) as [L1|L1]; cbn [andb].
  - rewrite storeCoins_eq by lia.
    pose proof (length_coins_bits minTon ltac:(lia)) as N1.
    rewrite writeBits_ok
      by (cbn [b_bits]; rewrite length_header_bits; unfold capacity; lia).
    cbn [bind b_bits b_refs].
    destruct (Z.ltb_spec maxTon (2 ^ 120)) as [L2|L2].
    + rewrite storeCoins_eq by lia.
      pose proof (length_coins_bits maxTon ltac:(lia)) as N2.
      rewrite writeBits_ok
        by (cbn [b_bits]; rewrite length_app, length_header_bits; unfold capacity; lia).
      cbn [endCell bind b_bits b_refs]. now rewrite <- app_assoc.
    + now rewrite storeCoins_too_big by exact L2.
  - now rewrite storeCoins_too_big by exact L1.
Qed.

Lemma setDeploymentCosts_accepts_below_2_120_witness :
  setDeploymentCosts 10000000000 20000000000
  = if (10000000000 <? 2 ^ 120) && (20000000000 <? 2 ^ 120)
    then Ok (mkCell (header_bits 6007 ++ coins_bits 10000000000 ++ coins_bits 20000000000) [])
    else Err BitLengthTooSmall.
Proof.
  apply (setDeploymentCosts_accepts_below_2_120 10000000000 20000000000);
    vm_compute; discriminate.
Defined.

(** X4. A [setDeploymentCosts] message for two amounts from 0 to 2^120 - 1,
    read back in the order it was written (tag, query identifier and two
    [readCoins]), gives 6007, 0 and the two amounts. *)
Theorem setDeploymentCosts_round_trip (minTon maxTon : Z) :
  0 <= minTon < 2 ^ 120 -> 0 <= maxTon < 2 ^ 120 ->
  exists c, setDeploymentCosts minTon maxTon = Ok c
            /\ read_costs c = Ok (6007, 0, minTon, maxTon).
Proof.
  intros Hmin Hmax.
  exists (mkCell (header_bits 6007 ++ coins_bits minTon ++ coins_bits maxTon) []).
  split.
  - unfold setDeploymentCosts. fold (header 6007).
    rewrite header_eq by (cbn; lia). cbn [bind].
    rewrite storeCoins_eq by lia.
    pose proof (length_coins_bits minTon ltac:(lia)) as N1.
    rewrite writeBits_ok
      by (cbn [b_bits]; rewrite length_header_bits; unfold capacity; lia).
    cbn [bind b_bits b_refs].
    rewrite storeCoins_eq by lia.
    pose proof (length_coins_bits maxTon ltac:(lia)) as N2.
    rewrite writeBits_ok
      by (cbn [b_bits]; rewrite length_app, length_header_bits; unfold capacity; lia).
    cbn [endCell bind b_bits b_refs]. now rewrite <- app_assoc.
  - unfold read_costs. rewrite read_header_eq by (cbn; lia). cbn [bind fst snd].
    rewrite readCoins_coins_bits by exact Hmin. cbn [bind fst snd].
    rewrite <- (app_nil_r (coins_bits maxTon)).
    rewrite readCoins_coins_bits by exact Hmax. reflexivity.
Qed.

Lemma setDeploymentCosts_round_trip_witness :
  exists c, setDeploymentCosts 10000000000 20000000000 = Ok c
            /\ read_costs c = Ok (6007, 0, 10000000000, 20000000000).
Proof.
  apply (setDeploymentCosts_round_trip 10000000000 20000000000); vm_compute;
    split; [discriminate | reflexivity | discriminate | reflexivity].
Defined.

(* ================================================================== *)
(** ** Addresses read back, and the storage cell of [data] *)

Lemma readAddress_of_rest (s : Slice) :
  readAddress s = readAddress_rest s |> (fun x => Ok (fst x)).
Proof.
  unfold readAddress, readAddress_rest.
  destruct (readUint 2 s) as [t|e]; cbn [bind]; [|reflexivity].
  destruct (fst t =? 0); [reflexivity|].
  destruct (negb (fst t =? 2)); [reflexivity|].
  destruct (readUint 1 (snd t)) as [a|e]; cbn [bind]; [|reflexivity].
  destruct (negb (fst a =? 0)); [reflexivity|].
  destruct (readInt 8 (snd a)) as [wc|e]; cbn [bind]; [|reflexivity].
  destruct (readBuffer 32 (snd wc)) as [h|e]; reflexivity.
Qed.

Lemma length_int8_bits (v : Z) : length (int8_bits v) = 8%nat.
Proof. reflexivity. Qed.

Lemma readInt8 (v : Z) (rest : list bool) :
  -128 <= v < 128 -> readInt 8 (int8_bits v ++ rest) = Ok (v, rest).
Proof.
  intros H. unfold readInt. rewrite readUint_app by apply length_int8_bits.
  cbn [bind fst snd]. unfold int8_bits.
  rewrite bits_to_Z_cons, bits_to_Z_uint_bits, length_uint_bits.
  change (2 ^ Z.of_nat 7) with 128. change (Z.of_nat 8 - 1) with 7.
  change (2 ^ Z.of_nat 8) with 256.
  destruct (Z.ltb_spec v 0) as [N|N]; cbn [Z.b2z].
  - rewrite Z.mod_small by lia.
    replace (1 * 128 + (128 + v)) with (256 + v) by lia.
    assert (Z.testbit (256 + v) 7 = true) as ->.
    { apply Z.testbit_true; [lia|]. change (2 ^ 7) with 128.
      Z.div_mod_to_equations. lia. }
    now replace (256 + v - 256) with v by lia.
  - rewrite Z.mod_small by lia.
    assert (Z.testbit (0 * 128 + v) 7 = false) as ->.
    { apply Z.testbit_false; [lia|]. change (2 ^ 7) with 128.
      Z.div_mod_to_equations. lia. }
    reflexivity.
Qed.

Lemma readAddress_rest_eq (a : Address) (rest : list bool) :
  valid_address a -> readAddress_rest (address_bits a ++ rest) = Ok (Some a, rest).
Proof.
  intros [Hw Hh]. unfold readAddress_rest, address_bits.
  cbn [app]. unfold readUint at 1. cbn [length Nat.leb firstn skipn bind fst snd].
  change (bits_to_Z [true; false]) with 2. cbn [Z.eqb Pos.eqb negb].
  unfold readUint at 1. cbn [length Nat.leb firstn skipn bind fst snd].
  change (bits_to_Z [false]) with 0. cbn [Z.eqb negb].
  rewrite <- app_assoc, readInt8 by exact Hw. cbn [bind fst snd].
  unfold readBuffer.
  assert (length (bytes_bits (hash a)) = (8 * 32)%nat) as L
    by (rewrite length_bytes_bits; lia).
  rewrite length_app, L.
  assert ((8 * 32 <=? 8 * 32 + length rest)%nat = true) as -> by (apply Nat.leb_le; lia).
  cbn [bind fst snd]. rewrite <- L.
  rewrite firstn_app, skipn_app, Nat.sub_diag, firstn_all, skipn_all.
  cbn [firstn skipn app]. rewrite app_nil_r, bits_bytes_bytes_bits.
  now destruct a.
Qed.

Lemma readAddress_eq (a : Address) (rest : list bool) :
  valid_address a -> readAddress (address_bits a ++ rest) = Ok (Some a).
Proof.
  intros H. now rewrite readAddress_of_rest, readAddress_rest_eq by exact H.
Qed.

(** X5. The messages of [changeVerifierRegistry] and [changeAdmin] for a
    valid address, read back (tag, query identifier, [readAddress]), give
    2003, resp. 3004, the query identifier 0 and that address. *)
Theorem address_messages_round_trip (a : Address) :
  valid_address a ->
  (exists c, changeVerifierRegistry a = Ok c
             /\ read_address_message c = Ok (2003, 0, Some a))
  /\ (exists c, changeAdmin a = Ok c
                /\ read_address_message c = Ok (3004, 0, Some a)).
Proof.
  intros H.
  assert (forall op, 0 <= op < 2 ^ 32 ->
            exists c, endCell (header op |> storeAddress a) = Ok c
                      /\ read_address_message c = Ok (op, 0, Some a)) as G.
  { intros op Hop. exists (mkCell (header_bits op ++ address_bits a) []). split.
    - rewrite header_eq by exact Hop. cbn [bind].
      rewrite storeAddress_eq by apply H. rewrite writeBits_ok; [reflexivity|].
      cbn [b_bits]. rewrite length_header_bits, length_address_bits by apply H.
      unfold capacity. lia.
    - unfold read_address_message. rewrite read_header_eq by exact Hop.
      cbn [bind fst snd]. rewrite <- (app_nil_r (address_bits a)).
      now rewrite readAddress_eq by exact H. }
  split; [apply (G 2003) | apply (G 3004)]; cbn; lia.
Qed.

Lemma address_messages_round_trip_witness :
  (exists c, changeVerifierRegistry verifier_registry_address = Ok c
             /\ read_address_message c = Ok (2003, 0, Some verifier_registry_address))
  /\ (exists c, changeAdmin verifier_registry_address = Ok c
                /\ read_address_message c = Ok (3004, 0, Some verifier_registry_address)).
Proof.
  apply (address_messages_round_trip verifier_registry_address).
  split; [cbn; lia | reflexivity].
Defined.

(** X6. For amounts from 0 to 2^120 - 1 and valid addresses, [data] returns
    the cell whose bits are the minimum, the maximum, the admin and then the
    verifier registry, and whose one reference is the code of the source
    items; read in that order the cell gives these five values back. *)
Theorem data_round_trip (code : Cell) (minTons maxTons : Z)
  (verifierRegistryAddress admin : Address) :
  0 <= minTons < 2 ^ 120 -> 0 <= maxTons < 2 ^ 120 ->
  valid_address verifierRegistryAddress -> valid_address admin ->
  data code minTons maxTons verifierRegistryAddress admin
  = Ok (mkCell (coins_bits minTons ++ coins_bits maxTons
                ++ address_bits admin ++ address_bits verifierRegistryAddress) [code])
  /\ read_data (mkCell (coins_bits minTons ++ coins_bits maxTons
                        ++ address_bits admin ++ address_bits verifierRegistryAddress)
                       [code])
     = Ok (minTons, maxTons, Some admin, Some verifierRegistryAddress, [code]).
Proof.
  intros Hmin Hmax Hv Ha.
  pose proof (length_coins_bits minTons Hmin) as N1.
  pose proof (length_coins_bits maxTons Hmax) as N2.
  pose proof (length_address_bits admin (proj2 Ha)) as N3.
  pose proof (length_address_bits verifierRegistryAddress (proj2 Hv)) as N4.
  split.
  - unfold data, beginCell. cbn [bind].
    rewrite storeCoins_eq by exact Hmin.
    rewrite writeBits_ok by (cbn [b_bits length]; unfold capacity; lia).
    cbn [bind b_bits b_refs app].
    rewrite storeCoins_eq by exact Hmax.
    rewrite writeBits_ok by (cbn [b_bits]; unfold capacity; lia).
    cbn [bind b_bits b_refs].
    rewrite storeAddress_eq by apply Ha.
    rewrite writeBits_ok by (cbn [b_bits]; rewrite length_app; unfold capacity; lia).
    cbn [bind b_bits b_refs].
    rewrite storeAddress_eq by apply Hv.
    rewrite writeBits_ok by (cbn [b_bits]; rewrite !length_app; unfold capacity; lia).
    cbn [bind b_bits b_refs storeRef endCell app].
    now rewrite <- !app_assoc.
  - unfold read_data, beginParse. cbn [cell_bits cell_refs].
    rewrite readCoins_coins_bits by exact Hmin. cbn [bind fst snd].
    rewrite readCoins_coins_bits by exact Hmax. cbn [bind fst snd].
    rewrite readAddress_rest_eq by exact Ha. cbn [bind fst snd].
    rewrite <- (app_nil_r (address_bits verifierRegistryAddress)).
    now rewrite readAddress_rest_eq by exact Hv.
Qed.

Lemma data_round_trip_witness :
  data newCodeCell 65000000 1000000000 verifier_registry_address admin_address
  = Ok (mkCell (coins_bits 65000000 ++ coins_bits 1000000000
                ++ address_bits admin_address ++ address_bits verifier_registry_address)
               [newCodeCell])
  /\ read_data (mkCell (coins_bits 65000000 ++ coins_bits 1000000000
                        ++ address_bits admin_address
                        ++ address_bits verifier_registry_address)
                       [newCodeCell])
     = Ok (65000000, 1000000000, Some admin_address, Some verifier_registry_address,
           [newCodeCell]).
Proof.
  apply (data_round_trip newCodeCell 65000000 1000000000
           verifier_registry_address admin_address).
  - vm_compute. split; [discriminate | reflexivity].
  - vm_compute. split; [discriminate | reflexivity].
  - split; [cbn; lia | reflexivity].
  - split; [cbn; lia | reflexivity].
Defined.

(* ================================================================== *)
(** ** Workchains and amounts outside their range *)

(** *** Workchains that are not one signed byte *)

Lemma firstn_uint_bits_half (k : nat) (w : Z) :
  firstn k (uint_bits (S k) w) = uint_bits k (w / 2).
Proof.
  induction k as [|k IH]; [reflexivity|].
  change (uint_bits (S (S k)) w) with (Z.testbit w (Z.of_nat (S k)) :: uint_bits (S k) w).
  cbn [firstn]. rewrite IH. cbn [uint_bits]. f_equal.
  rewrite <- Z.div2_div, Z.div2_spec, Z.shiftr_spec by lia. f_equal. lia.
Qed.

(** A negative number that [writeUint] lets through is written as half its
    magnitude: the sign of [toString(2, n)] takes the place of a digit. *)
Lemma storeUint_negative (v : Z) (n : nat) (b : Builder) :
  v < 0 -> - v < 2 ^ (Z.of_nat n - 1) ->
  storeUint v n b = writeBits (uint_bits n (- v / 2)) b.
Proof.
  intros Hv Hn. unfold storeUint, toString2_length, toString2_bits.
  destruct (Z.ltb_spec v 0) as [_|]; [|lia].
  destruct (Z.eqb_spec v 0) as [|_]; [lia|].
  rewrite Z.abs_neq by lia.
  destruct n as [|k].
  { cbn in Hn. assert (2 ^ (-1) = 0) by reflexivity. lia. }
  cbn [Nat.eqb orb].
  replace (Z.of_nat (S k) - 1) with (Z.of_nat k) in Hn by lia.
  pose proof (Z.log2_lt_pow2 (- v) (Z.of_nat k) ltac:(lia)) as E.
  apply E in Hn.
  assert ((S k <? 1 + Z.to_nat (Z.log2 (- v) + 1))%nat = false) as ->
    by (apply Nat.ltb_ge; pose proof (Z.log2_nonneg (- v)); lia).
  f_equal. replace (S k - 1)%nat with k by lia.
  rewrite firstn_uint_bits_half. cbn [uint_bits]. f_equal.
  symmetry. apply Z.testbit_false; [lia|].
  apply E in Hn. rewrite Z.div_small; [reflexivity|].
  split; [apply Z.div_pos; lia|].
  apply Z.div_lt_upper_bound; [lia|]. pose proof (Z.pow_pos_nonneg 2 (Z.of_nat k)). lia.
Qed.

Lemma storeUint_negative_too_small (v : Z) (n : nat) (b : Builder) :
  v < 0 -> 2 ^ (Z.of_nat n - 1) <= - v -> n <> O ->
  storeUint v n b = Err BitLengthTooSmall.
Proof.
  intros Hv Hn Hz. unfold storeUint, toString2_length.
  destruct (Z.ltb_spec v 0) as [_|]; [|lia].
  destruct (Z.eqb_spec v 0) as [|_]; [lia|].
  rewrite Z.abs_neq by lia.
  apply Z.log2_le_pow2 in Hn; [|lia].
  assert ((n <? 1 + Z.to_nat (Z.log2 (- v) + 1))%nat = true) as ->
    by (apply Nat.ltb_lt; lia).
  now rewrite orb_true_r.
Qed.

Lemma storeAddress_workChain_refused (a : Address) (b : Builder) :
  128 <= workChain a \/ workChain a <= -192 ->
  (length (b_bits b) + 4 <= capacity)%nat ->
  storeAddress a b = Err BitLengthTooSmall.
Proof.
  intros Hw Hb. unfold storeAddress.
  rewrite storeUint_fits by first [discriminate | cbn; lia].
  rewrite writeBits_ok by (rewrite length_uint_bits; lia). cbn [bind].
  rewrite storeUint_fits by first [discriminate | cbn; lia].
  rewrite writeBits_ok by (cbn [b_bits]; rewrite length_app, !length_uint_bits; lia).
  cbn [bind]. unfold storeInt. cbn [Nat.eqb Nat.sub]. unfold storeBit.
  destruct (Z.ltb_spec (workChain a) 0) as [N|N];
    (rewrite writeBits_ok
       by (cbn [b_bits length]; rewrite !length_app, !length_uint_bits; lia));
    cbn [bind].
  - change (2 ^ Z.of_nat 7) with 128.
    rewrite storeUint_negative_too_small; [reflexivity | lia | | discriminate].
    change (2 ^ (Z.of_nat 7 - 1)) with 64. lia.
  - rewrite storeUint_too_small; [reflexivity|].
    change (2 ^ Z.of_nat 7) with 128. lia.
Qed.

(** X7. An address whose workchain is 128 or more, or -192 or less, is
    refused with "bitLength is too small" wherever the source stores it: by
    [changeVerifierRegistry], by [changeAdmin], by [keyToAddress] as the
    registry's address, and by [data] as the verifier registry. *)
Theorem workChain_out_of_range_refused (a : Address) :
  128 <= workChain a \/ workChain a <= -192 ->
  changeVerifierRegistry a = Err BitLengthTooSmall
  /\ changeAdmin a = Err BitLengthTooSmall
  /\ (forall code verifierId codeCell,
        keyToAddress code verifierId codeCell a = Err BitLengthTooSmall)
  /\ (forall code minTons maxTons admin,
        0 <= minTons < 2 ^ 120 -> 0 <= maxTons < 2 ^ 120 -> valid_address admin ->
        data code minTons maxTons a admin = Err BitLengthTooSmall).
Proof.
  intros Hw.
  assert (forall op, 0 <= op < 2 ^ 32 ->
            endCell (header op |> storeAddress a) = Err BitLengthTooSmall) as G.
  { intros op Hop. rewrite header_eq by exact Hop. cbn [bind].
    rewrite storeAddress_workChain_refused; [reflexivity | exact Hw |].
    cbn [b_bits]. rewrite length_header_bits. unfold capacity. lia. }
  split; [apply (G 2003); cbn; lia|].
  split; [apply (G 3004); cbn; lia|].
  split.
  - intros code verifierId codeCell. unfold keyToAddress, beginCell. cbn [bind].
    unfold storeBuffer.
    rewrite writeBits_ok
      by (cbn [b_bits length]; rewrite length_bytes_bits; unfold prepareKey;
          rewrite length_sha256; unfold capacity; lia).
    cbn [bind].
    rewrite storeAddress_workChain_refused; [reflexivity | exact Hw |].
    cbn [b_bits app]. rewrite length_bytes_bits. unfold prepareKey.
    rewrite length_sha256. unfold capacity. lia.
  - intros code minTons maxTons admin Hmin Hmax Ha.
    pose proof (length_coins_bits minTons Hmin) as N1.
    pose proof (length_coins_bits maxTons Hmax) as N2.
    pose proof (length_address_bits admin (proj2 Ha)) as N3.
    unfold data, beginCell. cbn [bind].
    rewrite storeCoins_eq by exact Hmin.
    rewrite writeBits_ok by (cbn [b_bits length]; unfold capacity; lia).
    cbn [bind b_bits b_refs app].
    rewrite storeCoins_eq by exact Hmax.
    rewrite writeBits_ok by (cbn [b_bits]; unfold capacity; lia).
    cbn [bind b_bits b_refs].
    rewrite storeAddress_eq by apply Ha.
    rewrite writeBits_ok by (cbn [b_bits]; rewrite length_app; unfold capacity; lia).
    cbn [bind b_bits b_refs].
    rewrite storeAddress_workChain_refused; [reflexivity | exact Hw |].
    cbn [b_bits]. rewrite !length_app. unfold capacity. lia.
Qed.

Lemma workChain_out_of_range_refused_witness :
  changeVerifierRegistry (mkAddress 128 (hash admin_address)) = Err BitLengthTooSmall
  /\ changeAdmin (mkAddress 128 (hash admin_address)) = Err BitLengthTooSmall
  /\ (forall code verifierId codeCell,
        keyToAddress code verifierId codeCell (mkAddress 128 (hash admin_address))
        = Err BitLengthTooSmall)
  /\ (forall code minTons maxTons admin,
        0 <= minTons < 2 ^ 120 -> 0 <= maxTons < 2 ^ 120 -> valid_address admin ->
        data code minTons maxTons (mkAddress 128 (hash admin_address)) admin
        = Err BitLengthTooSmall).
Proof.
  apply (workChain_out_of_range_refused (mkAddress 128 (hash admin_address))).
  left. cbn. lia.
Defined.

Lemma bind_ext {A B : Type} (r : result A) (f g : A -> result B) :
  (forall x, f x = g x) -> bind r f = bind r g.
Proof. intros H. destruct r; cbn [bind]; [apply H | reflexivity]. Qed.





(** *** Negative amounts *)

Lemma coins_length_neg (v : Z) :
  - 2 ^ 116 < v < 0 ->
  1 <= coins_length v < 16 /\ - v < 2 ^ (coins_length v * 8 - 1).
Proof.
  intros H. unfold coins_length, toString16_length.
  destruct (Z.ltb_spec v 0) as [_|]; [|lia]. destruct (Z.eqb_spec v 0); [lia|].
  rewrite Z.abs_neq by lia.
  pose proof (Z.log2_nonneg (- v)) as L0.
  pose proof (Z.log2_lt_pow2 (- v) 116 ltac:(lia)) as E.
  assert (Z.log2 (- v) < 116) as L1 by (apply E; lia).
  split; [Z.div_mod_to_equations; lia|].
  apply Z.log2_lt_pow2; [lia|]. Z.div_mod_to_equations. lia.
Qed.

Lemma storeCoins_negative (v : Z) (b : Builder) :
  - 2 ^ 116 < v < 0 ->
  storeCoins v b
  = writeBits (uint_bits 4 (coins_length v)
               ++ uint_bits (Z.to_nat (coins_length v * 8)) (- v / 2)) b.
Proof.
  intros H. destruct (coins_length_neg v H) as [L1 L2].
  unfold storeCoins. fold (coins_length v).
  destruct (Z.eqb_spec v 0); [lia|].
  rewrite storeUint_fits by first [discriminate | cbn; lia].
  rewrite <- writeBits_then. apply bind_ext. intros x.
  apply storeUint_negative; [lia|].
  now replace (Z.of_nat (Z.to_nat (coins_length v * 8)) - 1)
    with (coins_length v * 8 - 1) by lia.
Qed.

(** X9. [setDeploymentCosts] does not refuse a negative minimum above
    -2^116: it returns a message, and the amount read back from it is half
    the magnitude, rounded down. *)
Theorem setDeploymentCosts_negative_amount (minTon maxTon : Z) :
  - 2 ^ 116 < minTon < 0 -> 0 <= maxTon < 2 ^ 120 ->
  exists c, setDeploymentCosts minTon maxTon = Ok c
            /\ read_costs c = Ok (6007, 0, - minTon / 2, maxTon).
Proof.
  intros Hmin Hmax. destruct (coins_length_neg minTon Hmin) as [L1 L2].
  set (l := coins_length minTon) in *.
  assert (0 <= - minTon / 2 < 2 ^ (l * 8)) as R.
  { split; [apply Z.div_pos; lia|].
    apply Z.div_lt_upper_bound; [lia|].
    replace (l * 8) with (Z.succ (l * 8 - 1)) by lia.
    rewrite Z.pow_succ_r by lia. lia. }
  exists (mkCell (header_bits 6007
                  ++ (uint_bits 4 l ++ uint_bits (Z.to_nat (l * 8)) (- minTon / 2))
                  ++ coins_bits maxTon) []).
  split.
  - unfold setDeploymentCosts. fold (header 6007).
    rewrite header_eq by (cbn; lia). cbn [bind].
    rewrite storeCoins_negative by exact Hmin. fold l.
    rewrite writeBits_ok
      by (cbn [b_bits]; rewrite length_header_bits, length_app, !length_uint_bits;
          unfold capacity; lia).
    cbn [bind b_bits b_refs].
    rewrite storeCoins_eq by lia.
    pose proof (length_coins_bits maxTon ltac:(lia)) as N2.
    rewrite writeBits_ok
      by (cbn [b_bits]; rewrite !length_app, length_header_bits, !length_uint_bits;
          unfold capacity; lia).
    cbn [endCell bind b_bits b_refs]. now rewrite <- !app_assoc.
  - unfold read_costs. rewrite read_header_eq by (cbn; lia). cbn [bind fst snd].
    rewrite <- !app_assoc. rewrite readCoins_eq by lia. cbn [bind fst snd].
    rewrite <- (app_nil_r (coins_bits maxTon)).
    rewrite readCoins_coins_bits by exact Hmax. reflexivity.
Qed.

Lemma setDeploymentCosts_negative_amount_witness :
  exists c, setDeploymentCosts (-3) 20000000000 = Ok c
            /\ read_costs c = Ok (6007, 0, - (-3) / 2, 20000000000).
Proof.
  apply (setDeploymentCosts_negative_amount (-3) 20000000000); vm_compute;
    split; [reflexivity | reflexivity | discriminate | reflexivity].
Defined.

(* ================================================================== *)
(** ** [deploySource], [keyToIntString] and the readers of the tests *)

(** *** [deploySource] read back *)

(** X10. For a content hash whose decoded value fits 256 bits and a pointer
    of at most 128 bytes, the message of [deploySource] reads back as the
    tag 1002, the query identifier 0, two 256-bit numbers, no bit left, and
    one reference that holds the bytes of the pointer; the two numbers are
    the digest of the verifier and the decoded content hash, the numbers
    whose decimal texts [childAddressFromChain] passes to the getter. *)
Theorem deploySource_round_trip (verifierId codeCellHash jsonURL : string) :
  contentKey_of codeCellHash < 2 ^ 256 ->
  (length (utf8 jsonURL) <= 128)%nat ->
  exists c verifierKey contentKey,
    deploySource verifierId codeCellHash jsonURL = Ok c
    /\ read_deploy c = Ok (1002, 0, verifierKey, contentKey, [], [utf8 jsonURL])
    /\ verifierKey = BN_of_bytes (sha256 (utf8 verifierId))
    /\ contentKey = BN_of_bytes (Buffer_from_base64 codeCellHash)
    /\ Deploy.childAddressFromChain_args verifierId codeCellHash
       = (BN_toString verifierKey, BN_toString contentKey).
Proof.
  intros Hk Hu.
  exists (mkCell (header_bits 1002
                  ++ bytes_bits (toSha256Buffer verifierId)
                  ++ uint_bits 256 (contentKey_of codeCellHash))
                 [mkCell (bytes_bits (utf8 jsonURL)) []]).
  exists (BN_of_bytes (sha256 (utf8 verifierId))).
  exists (BN_of_bytes (Buffer_from_base64 codeCellHash)).
  split; [|split; [|repeat split]].
  - rewrite deploySource_eq.
    destruct (Z.leb_spec (2 ^ 256) (contentKey_of codeCellHash)); [lia|].
    now assert ((8 * length (utf8 jsonURL) <=? capacity)%nat = true) as ->
      by (apply Nat.leb_le; unfold capacity; lia).
  - unfold read_deploy. rewrite read_header_eq by (cbn; lia). cbn [bind fst snd].
    rewrite readUint_app
      by (rewrite length_bytes_bits; unfold toSha256Buffer; now rewrite length_sha256).
    cbn [bind fst snd].
    rewrite <- (app_nil_r (uint_bits 256 _)).
    rewrite readUint_app by apply length_uint_bits.
    cbn [bind fst snd cell_refs map beginParse cell_bits].
    rewrite BN_of_bytes_bits, bits_to_Z_uint_bits, bits_bytes_bytes_bits.
    pose proof (BN_of_bytes_range (Buffer_from_base64 codeCellHash)) as [R _].
    unfold contentKey_of in *. rewrite Z.mod_small by (split; [exact R | exact Hk]).
    reflexivity.
Qed.

Lemma deploySource_round_trip_witness :
  exists c verifierKey contentKey,
    deploySource spec_verifier spec_codeCellHash spec_jsonURL = Ok c
    /\ read_deploy c = Ok (1002, 0, verifierKey, contentKey, [], [utf8 spec_jsonURL])
    /\ verifierKey = BN_of_bytes (sha256 (utf8 spec_verifier))
    /\ contentKey = BN_of_bytes (Buffer_from_base64 spec_codeCellHash)
    /\ Deploy.childAddressFromChain_args spec_verifier spec_codeCellHash
       = (BN_toString verifierKey, BN_toString contentKey).
Proof.
  apply (deploySource_round_trip spec_verifier spec_codeCellHash spec_jsonURL).
  - vm_compute. reflexivity.
  - vm_compute. lia.
Defined.

Lemma bytes_bits_zeros (k : nat) : bytes_bits (repeat x00 k) = repeat false (8 * k).
Proof.
  induction k as [|k IH]; [reflexivity|].
  cbn [repeat bytes_bits flat_map]. fold (bytes_bits (repeat x00 k)). rewrite IH.
  replace (8 * S k)%nat with (8 + 8 * k)%nat by lia. reflexivity.
Qed.

Lemma BN_of_bytes_zeros (k : nat) (buf : Buffer) :
  BN_of_bytes (repeat x00 k ++ buf) = BN_of_bytes buf.
Proof.
  unfold BN_of_bytes. rewrite fold_left_app.
  assert (fold_left (fun acc b => 256 * acc + Z_of_byte b) (repeat x00 k) 0 = 0) as ->;
    [|reflexivity].
  induction k as [|k IH]; [reflexivity | exact IH].
Qed.

(** A buffer shorter than the field it is stored in as a number is padded
    on the left with zero bits. *)
Lemma uint_bits_BN_of_bytes_short (n : nat) (buf : Buffer) :
  (length buf <= n)%nat ->
  uint_bits (8 * n) (BN_of_bytes buf)
  = repeat false (8 * (n - length buf)) ++ bytes_bits buf.
Proof.
  intros H. rewrite <- (BN_of_bytes_zeros (n - length buf) buf).
  rewrite <- bytes_bits_zeros, <- bytes_bits_app.
  replace n with (length (repeat x00 (n - length buf) ++ buf)) at 1
    by (rewrite length_app, repeat_length; lia).
  apply uint_bits_BN_of_bytes.
Qed.

(** X11. A content hash that decodes to at most 32 bytes is accepted with a
    pointer of at most 128 bytes, and its field in the message is the
    decoded bytes after as many zero bits as the 256 need. *)
Theorem deploySource_short_hash_zero_padded (verifierId codeCellHash jsonURL : string) :
  (length (Buffer_from_base64 codeCellHash) <= 32)%nat ->
  (length (utf8 jsonURL) <= 128)%nat ->
  deploySource verifierId codeCellHash jsonURL
  = Ok (mkCell (header_bits 1002
                ++ bytes_bits (sha256 (utf8 verifierId))
                ++ repeat false (8 * (32 - length (Buffer_from_base64 codeCellHash)))
                ++ bytes_bits (Buffer_from_base64 codeCellHash))
               [mkCell (bytes_bits (utf8 jsonURL)) []]).
Proof.
  intros Hh Hu. rewrite deploySource_eq. unfold contentKey_of.
  pose proof (BN_of_bytes_range (Buffer_from_base64 codeCellHash)) as [_ R].
  assert (2 ^ Z.of_nat (8 * length (Buffer_from_base64 codeCellHash)) <= 2 ^ 256)
    by (apply Z.pow_le_mono_r; lia).
  destruct (Z.leb_spec (2 ^ 256) (BN_of_bytes (Buffer_from_base64 codeCellHash))); [lia|].
  assert ((8 * length (utf8 jsonURL) <=? capacity)%nat = true) as ->
    by (apply Nat.leb_le; unfold capacity; lia).
  change 256%nat with (8 * 32)%nat.
  now rewrite uint_bits_BN_of_bytes_short by exact Hh.
Qed.

Lemma deploySource_short_hash_zero_padded_witness :
  deploySource spec_verifier "AQI=" spec_jsonURL
  = Ok (mkCell (header_bits 1002
                ++ bytes_bits (sha256 (utf8 spec_verifier))
                ++ repeat false (8 * (32 - length (Buffer_from_base64 "AQI=")))
                ++ bytes_bits (Buffer_from_base64 "AQI="))
               [mkCell (bytes_bits (utf8 spec_jsonURL)) []]).
Proof.
  apply (deploySource_short_hash_zero_padded spec_verifier "AQI=" spec_jsonURL);
    vm_compute; lia.
Defined.

(** *** [keyToIntString] *)

Lemma parse_decimal_BN_toString (v : Z) : parse_decimal (BN_toString v) = Some v.
Proof.
  unfold parse_decimal, BN_toString.
  rewrite DecimalString.NilZero.isi.
  - cbn [option_map]. now rewrite DecimalZ.of_to.
  - destruct v as [|p|p]; cbn [Z.to_int]; try discriminate.
    intros E. injection E as E. now apply DecimalPos.Unsigned.to_uint_nonnil in E.
  - destruct v as [|p|p]; cbn [Z.to_int]; try discriminate.
    intros E. injection E as E. now apply DecimalPos.Unsigned.to_uint_nonnil in E.
Qed.

Lemma BN_toString_inj (v w : Z) : BN_toString v = BN_toString w -> v = w.
Proof.
  intros E. apply (f_equal parse_decimal) in E.
  rewrite !parse_decimal_BN_toString in E. congruence.
Qed.

Lemma BN_of_bytes_inj (x y : Buffer) :
  length x = length y -> BN_of_bytes x = BN_of_bytes y -> x = y.
Proof.
  intros L E. apply bytes_bits_inj.
  rewrite <- (uint_bits_BN_of_bytes x), <- (uint_bits_BN_of_bytes y).
  now rewrite L, E.
Qed.

(** X12. [keyToIntString] writes the number the bytes of the key spell: the
    text reads back as that number, two keys have the same text exactly
    when they spell the same number, so keys of one length, those of
    [prepareKey] among them, are told apart, while zero bytes before a key
    do not show. *)
Theorem keyToIntString_is_the_number_of_the_key (key1 key2 : Buffer) :
  parse_decimal (keyToIntString key1) = Some (BN_of_bytes key1)
  /\ (keyToIntString key1 = keyToIntString key2 <-> BN_of_bytes key1 = BN_of_bytes key2)
  /\ (length key1 = length key2 -> keyToIntString key1 = keyToIntString key2 ->
      key1 = key2)
  /\ (forall k, keyToIntString (repeat x00 k ++ key1) = keyToIntString key1)
  /\ (forall v1 c1 v2 c2,
        keyToIntString (prepareKey v1 c1) = keyToIntString (prepareKey v2 c2) ->
        prepareKey v1 c1 = prepareKey v2 c2).
Proof.
  unfold keyToIntString. split; [apply parse_decimal_BN_toString|].
  split; [|split; [|split]].
  - split; [apply BN_toString_inj | congruence].
  - intros L E. apply BN_of_bytes_inj; [exact L | now apply BN_toString_inj].
  - intros k. now rewrite BN_of_bytes_zeros.
  - intros v1 c1 v2 c2 E. apply BN_of_bytes_inj; [|now apply BN_toString_inj].
    unfold prepareKey. now rewrite !length_sha256.
Qed.

(** *** The pointer read back *)

(** X13. The message [deploySource] returns has one reference, and
    [parseUrlFromGetSourceItemData] applied to it returns the pointer with
    the highest bit of each byte cleared: the pointer itself exactly when
    all its bytes are below 128. *)
Theorem pointer_read_back (verifierId codeCellHash jsonURL : string) (c : Cell) :
  deploySource verifierId codeCellHash jsonURL = Ok c ->
  exists ref,
    cell_refs c = [ref]
    /\ Deploy.parseUrlFromGetSourceItemData (Some ref)
       = Some (Some (Deploy.toString_ascii (utf8 jsonURL)))
    /\ (Deploy.toString_ascii (utf8 jsonURL) = jsonURL
        <-> Forall (fun b => Z_of_byte b < 128) (utf8 jsonURL)).
Proof.
  intros H. rewrite deploySource_eq in H.
  destruct (2 ^ 256 <=? contentKey_of codeCellHash); [discriminate|].
  destruct (8 * length (utf8 jsonURL) <=? capacity)%nat; [|discriminate].
  apply (f_equal (fun r => match r with Ok x => cell_refs x | Err _ => [] end)) in H.
  cbn [cell_refs] in H.
  exists (mkCell (bytes_bits (utf8 jsonURL)) []).
  split; [now symmetry|]. split; [|apply toString_ascii_utf8].
  unfold Deploy.parseUrlFromGetSourceItemData, Deploy.readRemainingBytes, beginParse.
  cbn [cell_bits]. rewrite length_bytes_bits, Nat.mul_comm, Nat.Div0.mod_mul.
  cbn [Nat.eqb]. now rewrite bits_bytes_bytes_bits.
Qed.

Lemma pointer_read_back_witness :
  exists ref,
    cell_refs (mkCell (header_bits 1002
                       ++ bytes_bits (toSha256Buffer spec_verifier)
                       ++ uint_bits 256 (contentKey_of spec_codeCellHash))
                      [mkCell (bytes_bits (utf8 spec_jsonURL)) []]) = [ref]
    /\ Deploy.parseUrlFromGetSourceItemData (Some ref)
       = Some (Some (Deploy.toString_ascii (utf8 spec_jsonURL)))
    /\ (Deploy.toString_ascii (utf8 spec_jsonURL) = spec_jsonURL
        <-> Forall (fun b => Z_of_byte b < 128) (utf8 spec_jsonURL)).
Proof.
  apply (pointer_read_back spec_verifier spec_codeCellHash spec_jsonURL).
  vm_compute. reflexivity.
Defined.

(** *** [deploySource]: which texts and pointers it refuses *)

(** X14. [deploySource] refuses a content hash whose decoded value does not
    fit 256 bits with "bitLength is too small" whatever the pointer: the
    key is stored before the cell of the pointer is built.  When the
    content hash fits, a pointer of 129 bytes or more is refused with
    "Invalid index: 1024", the write of the 1025th bit of its cell. *)
Theorem deploySource_refusals (verifierId codeCellHash jsonURL : string) :
  (2 ^ 256 <= contentKey_of codeCellHash ->
   deploySource verifierId codeCellHash jsonURL = Err BitLengthTooSmall)
  /\ (contentKey_of codeCellHash < 2 ^ 256 -> (129 <= length (utf8 jsonURL))%nat ->
      deploySource verifierId codeCellHash jsonURL = Err InvalidIndex).
Proof.
  rewrite deploySource_eq.
  destruct (Z.leb_spec (2 ^ 256) (contentKey_of codeCellHash)); split;
    try reflexivity; try lia.
  intros _ L.
  now assert ((8 * length (utf8 jsonURL) <=? capacity)%nat = false) as ->
    by (apply Nat.leb_gt; unfold capacity; lia).
Qed.

Lemma length_bits_bytes_le (l : list bool) : (8 * length (bits_bytes l) <= length l)%nat.
Proof.
  assert (forall n l, (length l <= n)%nat -> (8 * length (bits_bytes l) <= length l)%nat) as G.
  { clear l. induction n as [|n IH]; intros l L.
    - destruct l; [cbn; lia | cbn in L; lia].
    - destruct l as [|b7 [|b6 [|b5 [|b4 [|b3 [|b2 [|b1 [|b0 rest]]]]]]]];
        try (cbn; lia).
      cbn [bits_bytes length]. cbn [length] in L.
      specialize (IH rest ltac:(lia)). lia. }
  apply (G (length l)). lia.
Qed.

Lemma length_sextets (units : list Z) : (length (sextets units) <= length units)%nat.
Proof.
  induction units as [|u units IH]; [cbn; lia|].
  cbn [sextets length]. destruct (Ascii.eqb (low_byte u) "="); [cbn; lia|].
  destruct (unbase64 (low_byte u)); cbn [length]; lia.
Qed.

Lemma length_sextets_padded (units : list Z) :
  In "="%char (map low_byte units) -> (length (sextets units) < length units)%nat.
Proof.
  induction units as [|u units IH]; [intros []|].
  cbn [sextets length map]. intros [E|H].
  - rewrite E. cbn. lia.
  - destruct (Ascii.eqb (low_byte u) "="); [cbn; lia|]. specialize (IH H).
    destruct (unbase64 (low_byte u)); cbn [length]; lia.
Qed.

Lemma length_flat_sextets (l : list Z) : length (flat_map (uint_bits 6) l) = (6 * length l)%nat.
Proof.
  induction l as [|x l IH]; [reflexivity|].
  cbn [flat_map]. rewrite length_app, length_uint_bits, IH. cbn [length]. lia.
Qed.

(** X15. A content hash text of at most 43 UTF-16 code units, or of at most
    44 with one whose low byte is the padding sign among them, decodes to
    at most 32 bytes whatever the units are, and with a pointer of at most
    128 bytes [deploySource] returns a message for it. *)
Theorem deploySource_accepts_hash_text (verifierId codeCellHash jsonURL : string) :
  (length (utf16 codeCellHash) <= 43)%nat
  \/ (length (utf16 codeCellHash) <= 44)%nat
     /\ In "="%char (map low_byte (utf16 codeCellHash)) ->
  (length (utf8 jsonURL) <= 128)%nat ->
  (length (Buffer_from_base64 codeCellHash) <= 32)%nat
  /\ exists c, deploySource verifierId codeCellHash jsonURL = Ok c.
Proof.
  intros Hh Hu.
  assert (length (sextets (utf16 codeCellHash)) <= 43)%nat as S.
  { destruct Hh as [H|[H P]].
    - pose proof (length_sextets (utf16 codeCellHash)). lia.
    - pose proof (length_sextets_padded (utf16 codeCellHash) P). lia. }
  assert (length (Buffer_from_base64 codeCellHash) <= 32)%nat as L.
  { unfold Buffer_from_base64.
    pose proof (length_bits_bytes_le
                  (flat_map (uint_bits 6) (sextets (utf16 codeCellHash)))) as B.
    rewrite length_flat_sextets in B. lia. }
  split; [exact L|].
  rewrite deploySource_eq. unfold contentKey_of.
  pose proof (BN_of_bytes_range (Buffer_from_base64 codeCellHash)) as [_ R].
  assert (2 ^ Z.of_nat (8 * length (Buffer_from_base64 codeCellHash)) <= 2 ^ 256)
    by (apply Z.pow_le_mono_r; lia).
  destruct (Z.leb_spec (2 ^ 256) (BN_of_bytes (Buffer_from_base64 codeCellHash))); [lia|].
  assert ((8 * length (utf8 jsonURL) <=? capacity)%nat = true) as ->
    by (apply Nat.leb_le; unfold capacity; lia).
  eauto.
Qed.

Lemma deploySource_accepts_hash_text_witness :
  (length (Buffer_from_base64 spec_codeCellHash) <= 32)%nat
  /\ exists c, deploySource spec_verifier spec_codeCellHash spec_jsonURL = Ok c.
Proof.
  apply (deploySource_accepts_hash_text spec_verifier spec_codeCellHash spec_jsonURL).
  - right. split; [vm_compute; lia|]. vm_compute. tauto.
  - vm_compute. lia.
Defined.
